(** * tf_ddqn_cartpole: the DDQN agent and its training and evaluation loops

    A shallow embedding of [src/tf_ddqn_cartpole.py].

    - Python objects mutated in place ([self], the global NumPy random
      state, the environment, the weights file) become values that are
      passed in and returned.
    - Python exceptions become the [Raise] branch of [result].
    - NumPy arrays are lists; a two-dimensional array is a list of rows.
    - The code computes in IEEE floating point.  The development is
      generic in the scalar type ([Scalar]); it is instantiated with
      Rocq's primitive binary64 floats, the arithmetic of Python's
      floats and of the NumPy buffers (stored values, Bellman targets,
      the exploration rate), and with exact rationals ([Q]), the same
      expressions without rounding, for what is said of exact arithmetic
      and for decisions that rounding does not change.  Keras holds its
      weights in binary32, which is not modelled.
    - Keras ([predict], [fit], Adam) and the Gym environment are external:
      they are the interfaces [Approximator] and [Env]. *)

From Stdlib Require Import ZArith QArith Qminmax Qpower Lia Lqa Floats Uint63.
From stdpp Require Import base list.

Set Default Proof Using "Type*".

(** ** Exceptions *)

Inductive exception :=
  | IndexError
  | ValueError
  | ZeroDivisionError
  | FileNotFoundError.

Inductive result (A : Type) :=
  | Ok (x : A)
  | Raise (e : exception).

Arguments Ok {A} x.
Arguments Raise {A} e.

Definition bind {A B} (m : result A) (k : A -> result B) : result B :=
  match m with
  | Ok x => k x
  | Raise e => Raise e
  end.

Notation "'let*' p := m 'in' k" := (bind m (fun p => k))
  (at level 10, p pattern, m at level 100, k at level 200).

Fixpoint traverse {A B} (f : A -> result B) (l : list A) : result (list B) :=
  match l with
  | [] => Ok []
  | x :: l' => let* y := f x in let* ys := traverse f l' in Ok (y :: ys)
  end.

(** ** Scalars

    The operations the program applies to floating-point values. *)

Class Scalar (R : Type) := {
  sc_add : R -> R -> R;
  sc_sub : R -> R -> R;
  sc_mul : R -> R -> R;
  sc_ltb : R -> R -> bool;          (* [a < b] *)
  sc_leb : R -> R -> bool;          (* [a <= b] *)
  sc_isnan : R -> bool;
  sc_of_int : Z -> R;               (* a Python int stored as a float *)
  sc_to_int : R -> Z;               (* [ndarray.astype(int)]: truncation *)
  sc_ratio : Z -> positive -> R;    (* the float nearest to [n / d] *)
}.

Declare Scope scalar_scope.
Delimit Scope scalar_scope with sc.
Infix "+" := sc_add : scalar_scope.
Infix "-" := sc_sub : scalar_scope.
Infix "*" := sc_mul : scalar_scope.

(** Exact rationals: no rounding, no NaN, no infinity.  Not the
    arithmetic of the program; statements over [Q] say so. *)

Definition Q_to_int (q : Q) : Z := Z.quot (Qnum q) (Zpos (Qden q)).

#[export] Instance Q_scalar : Scalar Q := {|
  sc_add := Qplus;
  sc_sub := Qminus;
  sc_mul := Qmult;
  sc_ltb := fun a b => negb (Qle_bool b a);
  sc_leb := Qle_bool;
  sc_isnan := fun _ => false;
  sc_of_int := inject_Z;
  sc_to_int := Q_to_int;
  sc_ratio := Qmake;
|}.

(** IEEE binary64. *)

Definition float_of_int (a : Z) : float :=
  if (a <? 0)%Z then PrimFloat.opp (PrimFloat.of_uint63 (Uint63.of_Z (- a)))
  else PrimFloat.of_uint63 (Uint63.of_Z a).

(** The value a float-to-int64 conversion produces for NaN, the
    infinities and values out of range. *)
Definition int64_indefinite : Z := (- 2 ^ 63)%Z.

Definition float_to_int (f : float) : Z :=
  match Prim2SF f with
  | S754_zero _ => 0%Z
  | S754_finite s m e =>
      let v := match e with
               | Zneg k => Z.shiftr (Zpos m) (Zpos k)
               | _ => Z.shiftl (Zpos m) e
               end in
      if (v <? 2 ^ 63)%Z then cond_Zopp s v else int64_indefinite
  | _ => int64_indefinite
  end.

#[export] Instance float_scalar : Scalar float := {|
  sc_add := PrimFloat.add;
  sc_sub := PrimFloat.sub;
  sc_mul := PrimFloat.mul;
  sc_ltb := PrimFloat.ltb;
  sc_leb := PrimFloat.leb;
  sc_isnan := PrimFloat.is_nan;
  sc_of_int := float_of_int;
  sc_to_int := float_to_int;
  sc_ratio := fun n d => PrimFloat.div (float_of_int n) (float_of_int (Zpos d));
|}.

(** ** NumPy *)

(** An array argument: one-dimensional or two-dimensional. *)
Inductive ndarray (R : Type) :=
  | Vec (v : list R)
  | Mat (rows : list (list R)).

Arguments Vec {R} v.
Arguments Mat {R} rows.

Section Numpy.
Context {R : Type} {SR : Scalar R}.

(** A Python bool stored in a float array. *)
Definition sc_of_bool (b : bool) : R := sc_of_int (if b then 1%Z else 0%Z).

(** Python's builtin [max(a, b)]: [b] when [b > a], else [a]. *)
Definition py_max (a b : R) : R := if sc_ltb a b then b else a.

(** [np.max] over one row; a NaN, once met, is the result. *)
Definition amax_step (best x : R) : R :=
  if sc_isnan best then best
  else if sc_isnan x then x
  else if sc_ltb best x then x else best.

Definition np_max (row : list R) : result R :=
  match row with
  | [] => Raise ValueError
  | x :: rest => Ok (fold_left amax_step rest x)
  end.

(** [np.argmax]: the first index of the maximum (of the first NaN). *)
Fixpoint argmax_from (best_i : nat) (best : R) (i : nat) (l : list R) : nat :=
  match l with
  | [] => best_i
  | x :: l' =>
      if negb (sc_isnan best) && (sc_isnan x || sc_ltb best x)
      then argmax_from i x (S i) l'
      else argmax_from best_i best (S i) l'
  end.

Definition np_argmax (row : list R) : result Z :=
  match row with
  | [] => Raise ValueError
  | x :: rest => Ok (Z.of_nat (argmax_from 0 x 1 rest))
  end.

(** [arr[i] = x] *)
Definition np_set {A} (arr : list A) (i : nat) (x : A) : result (list A) :=
  if decide (i < length arr) then Ok (<[i := x]> arr) else Raise IndexError.

(** [arr[i]] *)
Definition np_get {A} (arr : list A) (i : nat) : result A :=
  match arr !! i with
  | Some x => Ok x
  | None => Raise IndexError
  end.

(** [arr[indices]] with an array of indices. *)
Definition np_take {A} (arr : list A) (indices : list nat) : result (list A) :=
  traverse (np_get arr) indices.

(** An integer used as an index into an axis of length [n]: negative
    indices count from the end. *)
Definition norm_index (a : Z) (n : nat) : result nat :=
  if decide (0 <= a < Z.of_nat n)%Z then Ok (Z.to_nat a)
  else if decide (- Z.of_nat n <= a < 0)%Z then Ok (Z.to_nat (Z.of_nat n + a))
  else Raise IndexError.

(** [arr[p] = x] for a row of a two-dimensional array: [x] is a row, or
    a matrix of one row (which broadcasts). *)
Definition np_set_row (arr : list (list R)) (p : nat) (x : ndarray R)
  : result (list (list R)) :=
  match x with
  | Vec row => np_set arr p row
  | Mat [row] => np_set arr p row
  | Mat _ => Raise ValueError
  end.

(** [q[np.arange(len(actions)), actions] = values], row [k] first. *)
Fixpoint np_scatter (q : list (list R)) (k : nat) (actions : list Z) (values : list R)
  : result (list (list R)) :=
  match actions, values with
  | a :: actions', v :: values' =>
      let* row := np_get q k in
      let* j := norm_index a (length row) in
      np_scatter (<[k := <[j := v]> row]> q) (S k) actions' values'
  | _, _ => Ok q
  end.

(** [np.empty]: the content is whatever the memory holds. *)
Definition np_empty (junk : nat -> R) (n : nat) : list R :=
  map junk (seq 0 n).

Definition np_empty2 (junk : nat -> nat -> R) (rows cols : nat) : list (list R) :=
  map (fun i => map (junk i) (seq 0 cols)) (seq 0 rows).
End Numpy.

(** ** The NumPy random state

    The generator is an oracle: a stream of raw words and the number of
    words drawn so far.  Every draw consumes one word. *)

Record RandomState := {
  entropy : nat -> N;
  drawn : nat;
}.

Definition next_word (g : RandomState) : N * RandomState :=
  (entropy g (drawn g), {| entropy := entropy g; drawn := S (drawn g) |}).

Section Random.
Context {R : Type} {SR : Scalar R}.

(** [np.random.uniform(low, high)]: [low + (high - low) * u] with [u] a
    53-bit fraction in [0, 1). *)
Definition random_sample (g : RandomState) : R * RandomState :=
  let (w, g') := next_word g in
  (sc_ratio (Z.of_N (w mod 2 ^ 53)) (2 ^ 53), g').

Definition random_uniform (low high : R) (g : RandomState) : R * RandomState :=
  let (u, g') := random_sample g in
  ((low + (high - low) * u)%sc, g').

(** [np.random.choice(range(n))]. *)
Definition random_choice (n : nat) (g : RandomState) : result (Z * RandomState) :=
  if decide (n = 0) then Raise ValueError
  else let (w, g') := next_word g in
       Ok (Z.of_N (w mod N.of_nat n), g').

(** [np.random.choice(n, size)]: [size] indices below [n], with
    replacement. *)
Fixpoint random_choices (n size : nat) (g : RandomState)
  : result (list nat * RandomState) :=
  match size with
  | 0 => Ok ([], g)
  | S size' =>
      if decide (n = 0) then Raise ValueError
      else let (w, g') := next_word g in
           let* (rest, g'') := random_choices n size' g' in
           Ok (N.to_nat (w mod N.of_nat n) :: rest, g'')
  end.
End Random.

(** ** Keras: the value-function approximator

    [forward w x] is the network's output row for the input row [x] under
    the parameters [w]; [fit] is one epoch of the compiled optimizer;
    [adam lr] is a freshly compiled [Adam(learning_rate=lr)]. *)

Class Approximator (R : Type) := {
  optimizer_state : Type;
  adam : R -> optimizer_state;
  forward : list (list R) -> list R -> list R;
  fit : list (list R) -> optimizer_state ->
        list (list R) -> list (list R) -> nat ->
        result (list (list R) * optimizer_state);
}.

(** ** The Gym environment *)

Class Env (R : Type) := {
  env_state : Type;
  env_reset : env_state -> list R * env_state;
  (* observation, reward, terminated *)
  env_step : env_state -> Z -> (list R * R * bool) * env_state;
}.

(** ** The agent *)

Section Agent.
Context {R : Type} {SR : Scalar R} {NN : Approximator R}.

(** A Keras model: its parameter tensors (each one flattened) and the
    state of its optimizer. *)
Record Model := {
  weights : list (list R);
  optimizer : optimizer_state;
}.

Record DDQNAgent := {
  n_actions : nat;
  lr : R;
  gamma : R;
  tau : R;
  epsilon : R;
  epsilon_decay : R;
  min_epsilon : R;
  memory_buffer_size : nat;
  memory_buffer_pointer : nat;
  buffer_full : bool;
  memory_buffer_current_state : list (list R);
  memory_buffer_next_state : list (list R);
  memory_buffer_action : list R;
  memory_buffer_reward : list R;
  memory_buffer_done : list R;
  q_model : Model;
  q_target_model : Model;
}.

(** [model.predict(x)]: one output row per input row; the input is a
    batch. *)
Definition predict (m : Model) (x : ndarray R) : result (list (list R)) :=
  match x with
  | Mat rows => Ok (map (forward (weights m)) rows)
  | Vec _ => Raise ValueError
  end.

Definition shape (ws : list (list R)) : list nat := map length ws.

(** [model.set_weights(ws)] and [model.load_weights]: the shapes must
    be the model's. *)
Definition set_weights (m : Model) (ws : list (list R)) : result Model :=
  if decide (shape ws = shape (weights m))
  then Ok {| weights := ws; optimizer := optimizer m |}
  else Raise ValueError.

(** [build_model]: three dense layers, 64, 64 and [action_size] units.
    The kernels get the initializer's values, the biases are zero; the
    model is compiled with Adam. *)
Definition kernel (init : nat -> R) (n : nat) : list R := map init (seq 0 n).
Definition zeros (n : nat) : list R := repeat (sc_of_int 0) n.

Definition build_model (lr : R) (init : nat -> nat -> R)
    (state_size action_size : nat) : Model :=
  {| weights := [ kernel (init 0) (state_size * 64); zeros 64;
                  kernel (init 1) (64 * 64); zeros 64;
                  kernel (init 2) (64 * action_size); zeros action_size ];
     optimizer := adam lr |}.

(** [DDQNAgent.__init__], with the buffer capacity as a parameter.
    [junk k] is the memory content [np.empty] finds for the [k]-th
    array, by row and column;
    array; [init_q] and [init_target] are the initial kernels of the
    two networks. *)
Definition DDQNAgent_sized (capacity : nat) (junk : nat -> nat -> nat -> R)
    (init_q init_target : nat -> nat -> R)
    (state_size action_size : nat) : DDQNAgent :=
  let lr := sc_ratio 5 1000 in
  {| n_actions := action_size;
     lr := lr;
     gamma := sc_ratio 99 100;
     tau := sc_ratio 5 100;
     epsilon := sc_ratio 1 1;
     epsilon_decay := sc_ratio 995 1000;
     min_epsilon := sc_ratio 1 10;
     memory_buffer_size := capacity;
     memory_buffer_pointer := 0;
     buffer_full := false;
     memory_buffer_current_state := np_empty2 (junk 0) capacity state_size;
     memory_buffer_next_state := np_empty2 (junk 1) capacity state_size;
     memory_buffer_action := np_empty (fun i => junk 2 i 0) capacity;
     memory_buffer_reward := np_empty (fun i => junk 3 i 0) capacity;
     memory_buffer_done := np_empty (fun i => junk 4 i 0) capacity;
     q_model := build_model lr init_q state_size action_size;
     q_target_model := build_model lr init_target state_size action_size |}.

(** [DDQNAgent.__init__]: [memory_buffer_size = int(1e5)]. *)
Definition DDQNAgent_init := DDQNAgent_sized (Z.to_nat 100000).

Definition set_q_model (self : DDQNAgent) (m : Model) : DDQNAgent :=
  {| n_actions := n_actions self; lr := lr self; gamma := gamma self;
     tau := tau self; epsilon := epsilon self;
     epsilon_decay := epsilon_decay self; min_epsilon := min_epsilon self;
     memory_buffer_size := memory_buffer_size self;
     memory_buffer_pointer := memory_buffer_pointer self;
     buffer_full := buffer_full self;
     memory_buffer_current_state := memory_buffer_current_state self;
     memory_buffer_next_state := memory_buffer_next_state self;
     memory_buffer_action := memory_buffer_action self;
     memory_buffer_reward := memory_buffer_reward self;
     memory_buffer_done := memory_buffer_done self;
     q_model := m;
     q_target_model := q_target_model self |}.

Definition set_q_target_model (self : DDQNAgent) (m : Model) : DDQNAgent :=
  {| n_actions := n_actions self; lr := lr self; gamma := gamma self;
     tau := tau self; epsilon := epsilon self;
     epsilon_decay := epsilon_decay self; min_epsilon := min_epsilon self;
     memory_buffer_size := memory_buffer_size self;
     memory_buffer_pointer := memory_buffer_pointer self;
     buffer_full := buffer_full self;
     memory_buffer_current_state := memory_buffer_current_state self;
     memory_buffer_next_state := memory_buffer_next_state self;
     memory_buffer_action := memory_buffer_action self;
     memory_buffer_reward := memory_buffer_reward self;
     memory_buffer_done := memory_buffer_done self;
     q_model := q_model self;
     q_target_model := m |}.

Definition set_epsilon (self : DDQNAgent) (e : R) : DDQNAgent :=
  {| n_actions := n_actions self; lr := lr self; gamma := gamma self;
     tau := tau self; epsilon := e;
     epsilon_decay := epsilon_decay self; min_epsilon := min_epsilon self;
     memory_buffer_size := memory_buffer_size self;
     memory_buffer_pointer := memory_buffer_pointer self;
     buffer_full := buffer_full self;
     memory_buffer_current_state := memory_buffer_current_state self;
     memory_buffer_next_state := memory_buffer_next_state self;
     memory_buffer_action := memory_buffer_action self;
     memory_buffer_reward := memory_buffer_reward self;
     memory_buffer_done := memory_buffer_done self;
     q_model := q_model self;
     q_target_model := q_target_model self |}.

(** [compute_action], lines 53-54: the greedy action. *)
Definition greedy_action (self : DDQNAgent) (current_state : ndarray R)
    : result Z :=
  let* q := predict (q_model self) current_state in
  let* q_values := np_get q 0 in
  np_argmax q_values.

(** [compute_action] *)
Definition compute_action (self : DDQNAgent) (current_state : ndarray R)
    (g : RandomState) : result (Z * RandomState) :=
  let (u, g1) := random_uniform (sc_of_int 0) (sc_of_int 1) g in
  if sc_ltb u (epsilon self) then
    random_choice (n_actions self) g1
  else
    let* a := greedy_action self current_state in
    Ok (a, g1).

(** [store_episode] *)
Definition store_episode (self : DDQNAgent) (current_state : ndarray R)
    (action : Z) (reward : R) (next_state : ndarray R) (done : bool)
    : result DDQNAgent :=
  let p := memory_buffer_pointer self in
  let* cs := np_set_row (memory_buffer_current_state self) p current_state in
  let* ns := np_set_row (memory_buffer_next_state self) p next_state in
  let* acts := np_set (memory_buffer_action self) p (sc_of_int action) in
  let* rews := np_set (memory_buffer_reward self) p reward in
  let* dones := np_set (memory_buffer_done self) p (sc_of_bool done) in
  let p' := S p in
  let wrap := bool_decide (memory_buffer_size self <= p') in
  Ok {| n_actions := n_actions self; lr := lr self; gamma := gamma self;
        tau := tau self; epsilon := epsilon self;
        epsilon_decay := epsilon_decay self; min_epsilon := min_epsilon self;
        memory_buffer_size := memory_buffer_size self;
        memory_buffer_pointer := if wrap then 0 else p';
        buffer_full := if wrap then true else buffer_full self;
        memory_buffer_current_state := cs;
        memory_buffer_next_state := ns;
        memory_buffer_action := acts;
        memory_buffer_reward := rews;
        memory_buffer_done := dones;
        q_model := q_model self;
        q_target_model := q_target_model self |}.

(** [update_epsilon] *)
Definition update_epsilon (self : DDQNAgent) : DDQNAgent :=
  set_epsilon self
    (py_max (epsilon_decay self * epsilon self)%sc (min_epsilon self)).

(** [train], lines 75-82: the sampled batch. *)
Record Batch := {
  batch_indices : list nat;
  current_states : list (list R);
  rewards : list R;
  actions : list Z;
  done : list R;
  next_states : list (list R);
}.

Definition buffer_end_ptr (self : DDQNAgent) : nat :=
  if negb (buffer_full self)
  then Nat.min (memory_buffer_pointer self) (memory_buffer_size self)
  else memory_buffer_size self.

Definition sample_batch (self : DDQNAgent) (batch_size : nat) (g : RandomState)
    : result (Batch * RandomState) :=
  let* (idx, g') := random_choices (buffer_end_ptr self) batch_size g in
  let* cs := np_take (memory_buffer_current_state self) idx in
  let* rs := np_take (memory_buffer_reward self) idx in
  let* acts := np_take (memory_buffer_action self) idx in
  let* ds := np_take (memory_buffer_done self) idx in
  let* ns := np_take (memory_buffer_next_state self) idx in
  Ok ({| batch_indices := idx; current_states := cs; rewards := rs;
         actions := map sc_to_int acts; done := ds; next_states := ns |}, g').

(** [train], line 87, for one row:
    [reward + gamma * (1 - done) * max]. *)
Definition bellman_target (gamma r d m : R) : R :=
  (r + gamma * (sc_of_int 1 - d) * m)%sc.

Fixpoint bellman_rows (gamma : R) (rs ds ms : list R) : list R :=
  match rs, ds, ms with
  | r :: rs', d :: ds', m :: ms' =>
      bellman_target gamma r d m :: bellman_rows gamma rs' ds' ms'
  | _, _, _ => []
  end.

(** [train], lines 85 and 87. *)
Definition bellman_targets (self : DDQNAgent) (b : Batch) : result (list R) :=
  let* q_next_states_target := predict (q_target_model self) (Mat (next_states b)) in
  let* maxes := traverse np_max q_next_states_target in
  Ok (bellman_rows (gamma self) (rewards b) (done b) maxes).

(** [train], lines 84-88: the matrix handed to [fit]. *)
Definition regression_targets (self : DDQNAgent) (b : Batch)
    : result (list (list R)) :=
  let* q_current_states := predict (q_model self) (Mat (current_states b)) in
  let* targets := bellman_targets self b in
  np_scatter q_current_states 0 (actions b) targets.

Definition model_fit (m : Model) (x y : list (list R)) (batch_size : nat)
    : result Model :=
  let* (w, o) := fit (weights m) (optimizer m) x y batch_size in
  Ok {| weights := w; optimizer := o |}.

(** [train] *)
Definition train (self : DDQNAgent) (batch_size : nat) (g : RandomState)
    : result (DDQNAgent * RandomState) :=
  let* (b, g') := sample_batch self batch_size g in
  let* y := regression_targets self b in
  let* m := model_fit (q_model self) (current_states b) y batch_size in
  Ok (set_q_model self m, g').

(** [update_q_target_network].  Tensors of one layer pair are combined
    element by element; NumPy refuses operands of different sizes. *)
Definition soft_update (tau w_main w_target : R) : R :=
  (w_main * tau + w_target * (sc_of_int 1 - tau))%sc.

Definition combine (tau : R) (w_main w_target : list R) : result (list R) :=
  if decide (length w_main = length w_target)
  then Ok (zip_with (soft_update tau) w_main w_target)
  else Raise ValueError.

Definition update_q_target_network (self : DDQNAgent) : result DDQNAgent :=
  let* combined_weights :=
    traverse (fun p => combine (tau self) (fst p) (snd p))
             (zip (weights (q_model self)) (weights (q_target_model self))) in
  let* m := set_weights (q_target_model self) combined_weights in
  Ok (set_q_target_model self m).

(** The weights file: its successive contents, the latest first. *)
Definition weights_file := list (list (list R)).

(** [save_model_weights] *)
Definition save_model_weights (self : DDQNAgent) (disk : weights_file)
    : weights_file :=
  weights (q_model self) :: disk.

Definition load_weights (m : Model) (disk : weights_file) : result Model :=
  match disk with
  | [] => Raise FileNotFoundError
  | ws :: _ => set_weights m ws
  end.

(** [load_model_weights] *)
Definition load_model_weights (self : DDQNAgent) (disk : weights_file)
    : result DDQNAgent :=
  let* m := load_weights (q_model self) disk in
  let* mt := load_weights (q_target_model self) disk in
  Ok (set_q_target_model (set_q_model self m) mt).
End Agent.

Arguments Model R {NN}.
Arguments DDQNAgent R {NN}.
Arguments Batch : clear implicits.
Arguments weights_file R : clear implicits.

(** ** The training loop *)

(** The constants at the top of [run_training_routine]. *)
Record TrainConfig := {
  success_threshold : Z;
  successfull_episodes_threshold : nat;
  n_episodes : nat;
  max_iterations_ep : nat;
  batch_size : nat;
  q_network_update_freq : nat;
}.

Definition default_config : TrainConfig :=
  {| success_threshold := 180;
     successfull_episodes_threshold := 20;
     n_episodes := 75;
     max_iterations_ep := 400;
     batch_size := 256;
     q_network_update_freq := 4 |}.

(** The calls the loops make on the agent, the environment and the
    weights file.  The log of calls is not a variable of the program: it
    records, newest call first, what the program did. *)
Inductive call :=
  | CallReset
  | CallAction (a : Z)
  | CallStep
  | CallStore
  | CallTrain
  | CallSync
  | CallDecay
  | CallSave.

Section Loops.
Context {R : Type} {SR : Scalar R} {NN : Approximator R} {E : Env R}.

Record Run := {
  agent : DDQNAgent R;
  rng : RandomState;
  env : env_state;
  disk : weights_file R;
  total_steps : nat;
  successfull_episodes : nat;
  reward_history : list R;
  calls : list call;
}.

(** Lines 139-143: train, synchronise and decay, all three or none. *)
Definition learn (cfg : TrainConfig) (total_steps : nat)
    (ag : DDQNAgent R) (g : RandomState) (log : list call)
    : result (DDQNAgent R * RandomState * list call) :=
  if decide (batch_size cfg <= total_steps) then
    if decide (q_network_update_freq cfg = 0) then Raise ZeroDivisionError
    else if decide (total_steps mod q_network_update_freq cfg = 0) then
      let* (ag1, g1) := train ag (batch_size cfg) g in
      let* ag2 := update_q_target_network ag1 in
      Ok (update_epsilon ag2, g1, CallDecay :: CallSync :: CallTrain :: log)
    else Ok (ag, g, log)
  else Ok (ag, g, log).

(** Lines 129-150: the steps of one episode.  [steps_left] is what
    remains of [range(max_iterations_ep)]. *)
Fixpoint run_steps (cfg : TrainConfig) (steps_left : nat) (st : Run)
    (current_state : ndarray R) (rewards : R) : result (Run * R) :=
  match steps_left with
  | 0 => Ok (st, rewards)
  | S steps_left' =>
      let total := S (total_steps st) in
      let* (action, g) := compute_action (agent st) current_state (rng st) in
      let '(next_obs, reward, done, e) := env_step (env st) action in
      let next_state := Mat [next_obs] in
      let rewards := (rewards + reward)%sc in
      let* ag := store_episode (agent st) current_state action reward next_state done in
      let log := CallStore :: CallStep :: CallAction action :: calls st in
      let* (ag, g, log) := learn cfg total ag g log in
      let st' successes :=
        {| agent := ag; rng := g; env := e; disk := disk st;
           total_steps := total; successfull_episodes := successes;
           reward_history := reward_history st; calls := log |} in
      if done then
        if sc_leb (sc_of_int (success_threshold cfg)) rewards
        then Ok (st' (S (successfull_episodes st)), rewards)
        else Ok (st' (successfull_episodes st), rewards)
      else run_steps cfg steps_left' (st' (successfull_episodes st)) next_state rewards
  end.

(** Lines 163-164 and 168-169. *)
Definition save_and_return (st : Run) : Run :=
  {| agent := agent st; rng := rng st; env := env st;
     disk := save_model_weights (agent st) (disk st);
     total_steps := total_steps st;
     successfull_episodes := successfull_episodes st;
     reward_history := reward_history st;
     calls := CallSave :: calls st |}.

(** Lines 120-164: one episode, up to the test of the threshold. *)
Definition run_episode (cfg : TrainConfig) (st : Run) : result Run :=
  let (obs, e) := env_reset (env st) in
  let st0 :=
    {| agent := agent st; rng := rng st; env := e; disk := disk st;
       total_steps := total_steps st;
       successfull_episodes := successfull_episodes st;
       reward_history := reward_history st;
       calls := CallReset :: calls st |} in
  let* (st1, rewards) :=
    run_steps cfg (max_iterations_ep cfg) st0 (Mat [obs]) (sc_of_int 0) in
  Ok {| agent := agent st1; rng := rng st1; env := env st1; disk := disk st1;
        total_steps := total_steps st1;
        successfull_episodes := successfull_episodes st1;
        reward_history := reward_history st1 ++ [rewards];
        calls := calls st1 |}.

(** Lines 120-169.  [episodes_left] is what remains of
    [range(n_episodes)]. *)
Fixpoint run_episodes (cfg : TrainConfig) (episodes_left : nat) (st : Run)
    : result Run :=
  match episodes_left with
  | 0 => Ok (save_and_return st)
  | S episodes_left' =>
      let* st' := run_episode cfg st in
      if decide (successfull_episodes_threshold cfg <= successfull_episodes st')
      then Ok (save_and_return st')
      else run_episodes cfg episodes_left' st'
  end.

(** [run_training_routine].  What the routine gets from outside: the
    random state, the environment as [gym.make] returns it, the
    weights file, the sizes of the two spaces, the memory [np.empty]
    finds and the initial kernels. *)
Definition run_training_routine (cfg : TrainConfig)
    (g : RandomState) (e : env_state) (d : weights_file R)
    (state_size action_size : nat)
    (junk : nat -> nat -> nat -> R)
    (init_q init_target : nat -> nat -> R) : result Run :=
  run_episodes cfg (n_episodes cfg)
    {| agent := DDQNAgent_init junk init_q init_target state_size action_size;
       rng := g; env := e; disk := d;
       total_steps := 0; successfull_episodes := 0;
       reward_history := []; calls := [] |}.

(** ** The evaluation loop *)

Record Sim := {
  sim_rewards : R;
  sim_env : env_state;
  sim_rng : RandomState;
  (* the states the agent was asked about and its answers, oldest first *)
  sim_actions : list (ndarray R * Z);
}.

(** Lines 180-184.  [None]: the episode is not over after [fuel]
    steps. *)
Fixpoint sim_loop (fuel : nat) (ag : DDQNAgent R) (state : ndarray R) (s : Sim)
    : result (option Sim) :=
  match fuel with
  | 0 => Ok None
  | S fuel' =>
      let* (action, g) := compute_action ag state (sim_rng s) in
      let '(obs, reward, done, e) := env_step (sim_env s) action in
      let s' := {| sim_rewards := (sim_rewards s + reward)%sc;
                   sim_env := e; sim_rng := g;
                   sim_actions := sim_actions s ++ [(state, action)] |} in
      if done then Ok (Some s') else sim_loop fuel' ag (Vec obs) s'
  end.

(** [run_sim_routine] *)
Definition run_sim_routine (fuel : nat)
    (g : RandomState) (e : env_state) (d : weights_file R)
    (state_size action_size : nat)
    (junk : nat -> nat -> nat -> R)
    (init_q init_target : nat -> nat -> R) : result (option Sim) :=
  let ag := DDQNAgent_init junk init_q init_target state_size action_size in
  let* ag := load_model_weights ag d in
  let (obs, e') := env_reset e in
  sim_loop fuel ag (Mat [obs])
    {| sim_rewards := sc_of_int 0; sim_env := e'; sim_rng := g;
       sim_actions := [] |}.
End Loops.

Arguments Run R {NN E}.
Arguments Sim R {E}.

(** ** Transitions and sequences of stores *)

Section Transitions.
Context {R : Type} {SR : Scalar R} {NN : Approximator R}.

Record Transition := {
  t_state : list R;
  t_action : Z;
  t_reward : R;
  t_next_state : list R;
  t_done : bool;
}.

(** The call the training loop makes: both states are batches of one
    row. *)
Definition store_transition (self : DDQNAgent R) (t : Transition)
    : result (DDQNAgent R) :=
  store_episode self (Mat [t_state t]) (t_action t) (t_reward t)
    (Mat [t_next_state t]) (t_done t).

Fixpoint store_all (self : DDQNAgent R) (ts : list Transition)
    : result (DDQNAgent R) :=
  match ts with
  | [] => Ok self
  | t :: ts' => let* self' := store_transition self t in store_all self' ts'
  end.

(** Slot [j] of the five arrays holds the transition [t]. *)
Definition slot_holds (self : DDQNAgent R) (j : nat) (t : Transition) : Prop :=
  memory_buffer_current_state self !! j = Some (t_state t) /\
  memory_buffer_next_state self !! j = Some (t_next_state t) /\
  memory_buffer_action self !! j = Some (sc_of_int (t_action t)) /\
  memory_buffer_reward self !! j = Some (t_reward t) /\
  memory_buffer_done self !! j = Some (sc_of_bool (t_done t)).

(** The five arrays have the length the agent believes they have. *)
Definition arrays_sized (self : DDQNAgent R) : Prop :=
  length (memory_buffer_current_state self) = memory_buffer_size self /\
  length (memory_buffer_next_state self) = memory_buffer_size self /\
  length (memory_buffer_action self) = memory_buffer_size self /\
  length (memory_buffer_reward self) = memory_buffer_size self /\
  length (memory_buffer_done self) = memory_buffer_size self.

(** An agent as [__init__] leaves it, with capacity [C]. *)
Definition empty_buffer (C : nat) (self : DDQNAgent R) : Prop :=
  memory_buffer_size self = C /\
  memory_buffer_pointer self = 0 /\
  buffer_full self = false /\
  arrays_sized self.

(** The state of the buffer after the transitions [ts], stored into an
    agent that had an empty buffer of capacity [C]. *)
Definition after_stores (C : nat) (ts : list Transition) (self : DDQNAgent R)
    : Prop :=
  let n := length ts in
  memory_buffer_size self = C /\
  arrays_sized self /\
  memory_buffer_pointer self = n mod C /\
  buffer_full self = bool_decide (C <= n) /\
  forall i t, ts !! i = Some t -> n <= i + C -> slot_holds self (i mod C) t.

End Transitions.

Arguments Transition R : clear implicits.

(** ** A concrete approximator

    The forward pass of the network [build_model] describes: dense
    layers, ReLU on the hidden ones, a linear output.  A kernel of shape
    (inputs, units) is flattened row by row.  Its [fit] is a gradient
    step on the output bias only; Adam itself is not modelled. *)

Section Dense.
Context {R : Type} {SR : Scalar R}.

Definition sc_sum (l : list R) : R := fold_left sc_add l (sc_of_int 0).

Definition dense (activation : R -> R) (k b x : list R) : list R :=
  imap (fun j bj =>
          activation
            (sc_sum (imap (fun i xi => xi * nth (i * length b + j) k (sc_of_int 0))%sc x)
             + bj)%sc) b.

Definition relu (x : R) : R := py_max (sc_of_int 0) x.

Fixpoint dense_forward (ws : list (list R)) (x : list R) : list R :=
  match ws with
  | [k; b] => dense (fun y => y) k b x
  | k :: b :: rest => dense_forward rest (dense relu k b x)
  | _ => x
  end.

Definition bias_step (rate : R) (preds ys : list (list R)) (b : list R) : list R :=
  imap (fun j bj =>
          bj - rate * sc_sum (zip_with (fun p y =>
                                 nth j p (sc_of_int 0) - nth j y (sc_of_int 0)) preds ys))%sc
       b.

Definition dense_fit (ws : list (list R)) (rate : R) (x y : list (list R)) (_ : nat)
    : result (list (list R) * R) :=
  match reverse ws with
  | b :: rest =>
      Ok (reverse rest ++ [bias_step rate (map (dense_forward ws) x) y b], rate)
  | [] => Ok (ws, rate)
  end.

Definition dense_network : Approximator R :=
  {| optimizer_state := R;
     adam := fun rate => rate;
     forward := dense_forward;
     fit := dense_fit |}.
End Dense.

(** ** Concrete environments *)

(** Every episode ends at its first step, with reward 1000. *)
Definition jackpot_env {R} {SR : Scalar R} : Env R :=
  {| env_state := unit;
     env_reset := fun s => ([sc_of_int 0], s);
     env_step := fun s _ => ([sc_of_int 0], sc_of_int 1000, true, s) |}.

(** The pole never falls: reward 1 at every step, never [done]. *)
Definition steady_env {R} {SR : Scalar R} : Env R :=
  {| env_state := unit;
     env_reset := fun s => ([sc_of_int 0], s);
     env_step := fun s _ => ([sc_of_int 0], sc_of_int 1, false, s) |}.

(** The episode ends when the counter reaches zero; the observation is
    the counter, the reward is 1. *)
Definition countdown_env {R} {SR : Scalar R} : Env R :=
  {| env_state := nat;
     env_reset := fun s => ([sc_of_int (Z.of_nat s)], s);
     env_step := fun s _ =>
       ([sc_of_int (Z.of_nat (Nat.pred s))], sc_of_int 1,
        bool_decide (s <= 1), Nat.pred s) |}.

(** ** Concrete data *)

Definition zero_junk {R} {SR : Scalar R} : nat -> nat -> nat -> R :=
  fun _ _ _ => sc_of_int 0.

Definition zero_entropy : RandomState := {| entropy := fun _ => 0%N; drawn := 0 |}.

(** An entropy stream whose words alternate: a large one for the uniform
    draw, the position for the choice. *)
Definition counting_entropy : RandomState :=
  {| entropy := fun i => N.of_nat i; drawn := 0 |}.

(** Small integer kernels, so that the networks are not constant. *)
Definition ternary_init (shift : nat) : nat -> nat -> Q :=
  fun k i => inject_Z (Z.of_nat ((i + k + shift) mod 3) - 1).

(** A tiny agent over the rationals: capacity 2, one state component,
    two actions. *)
Definition tiny_agent : DDQNAgent Q (NN := dense_network) :=
  DDQNAgent_sized (NN := dense_network) 2 zero_junk
    (ternary_init 0) (ternary_init 1) 1 2.

Definition sample_transitions : list (Transition Q) :=
  [ {| t_state := [1%Q]; t_action := 1; t_reward := 1%Q;
       t_next_state := [2%Q]; t_done := false |};
    {| t_state := [2%Q]; t_action := 0; t_reward := 1%Q;
       t_next_state := [3%Q]; t_done := false |};
    {| t_state := [3%Q]; t_action := 1; t_reward := 2%Q;
       t_next_state := [4%Q]; t_done := true |} ].

(** The tiny agent after the three stores. *)
Definition filled_agent : DDQNAgent Q (NN := dense_network) :=
  match store_all tiny_agent sample_transitions with
  | Ok self => self
  | Raise _ => tiny_agent
  end.

(** ** Reading the log of calls *)

Fixpoint count_stores (log : list call) : nat :=
  match log with
  | [] => 0
  | CallStore :: log' => S (count_stores log')
  | _ :: log' => count_stores log'
  end.

Fixpoint count_saves (log : list call) : nat :=
  match log with
  | [] => 0
  | CallSave :: log' => S (count_saves log')
  | _ :: log' => count_saves log'
  end.

Fixpoint count_resets (log : list call) : nat :=
  match log with
  | [] => 0
  | CallReset :: log' => S (count_resets log')
  | _ :: log' => count_resets log'
  end.

(** Every call of [train] in the log comes after at least [bs] calls of
    [store_episode]. *)
Definition trains_gated (bs : nat) (log : list call) : Prop :=
  forall newer older, log = newer ++ CallTrain :: older -> bs <= count_stores older.

Definition is_ok {A} (r : result A) : bool :=
  match r with
  | Ok _ => true
  | Raise _ => false
  end.

(** An element of a parameter set: tensor [l], position [i]. *)
Definition param {R} (ws : list (list R)) (l i : nat) : option R :=
  match ws !! l with
  | Some w => w !! i
  | None => None
  end.

Section Iterates.
Context {R : Type} {SR : Scalar R} {NN : Approximator R}.


(** [k] consecutive calls of [update_epsilon]. *)
Fixpoint decay_times (k : nat) (self : DDQNAgent R) : DDQNAgent R :=
  match k with
  | 0 => self
  | S k' => decay_times k' (update_epsilon self)
  end.
End Iterates.

(** A tiny agent over binary64 floats, and transitions for it. *)
Definition float_agent : DDQNAgent float (NN := dense_network) :=
  DDQNAgent_sized (NN := dense_network) 2 zero_junk (zero_junk 0) (zero_junk 0) 1 2.

Definition float_transitions : list (Transition float) :=
  [ {| t_state := [0.5%float]; t_action := 1; t_reward := 1%float;
       t_next_state := [0.25%float]; t_done := false |};
    {| t_state := [0.25%float]; t_action := 0; t_reward := 1%float;
       t_next_state := [0.125%float]; t_done := true |};
    {| t_state := [0.125%float]; t_action := 1; t_reward := 1%float;
       t_next_state := [0.0625%float]; t_done := false |} ].

(** Parameters, of the shapes of the tiny agent's networks, under which
    action 1 has the larger value whatever the state. *)
Definition favour_action_1 : list (list Q) :=
  [ repeat 0%Q 64; repeat 0%Q 64; repeat 0%Q 4096; repeat 0%Q 64;
    repeat 0%Q 128; [0%Q; 1%Q] ].

(** What is observed of an evaluation run: the actions taken and the
    total reward. *)
Definition sim_summary {R} {E : Env R} (r : result (option (Sim R)))
    : option (list Z * R) :=
  match r with
  | Ok (Some s) => Some (map snd (sim_actions s), sim_rewards s)
  | _ => None
  end.

(** What is observed of a training run: the reward history, the number
    of successful episodes, the log of calls and the number of versions
    of the weights file. *)
Definition run_summary {R} {NN : Approximator R} {E : Env R} (r : result (Run R))
    : option (list R * nat * list call * nat) :=
  match r with
  | Ok st => Some (reward_history st, successfull_episodes st, calls st,
                   length (disk st))
  | Raise _ => None
  end.

(** A short training schedule: three episodes of at most two steps, an
    episode succeeding from a cumulative reward of 2, one success being
    enough. *)
Definition short_config : TrainConfig :=
  {| success_threshold := 2;
     successfull_episodes_threshold := 1;
     n_episodes := 3;
     max_iterations_ep := 2;
     batch_size := 256;
     q_network_update_freq := 4 |}.

(** A schedule under which training starts at the second step. *)
Definition eager_config : TrainConfig :=
  {| success_threshold := 180;
     successfull_episodes_threshold := 20;
     n_episodes := 1;
     max_iterations_ep := 4;
     batch_size := 2;
     q_network_update_freq := 2 |}.

(** The log agrees with the step counter, and no call of [train] in it
    comes too early. *)
Definition log_consistent {R} {NN : Approximator R} {E : Env R}
    (bs : nat) (st : Run R) : Prop :=
  count_stores (calls st) = total_steps st /\ trains_gated bs (calls st).

Fixpoint count_trains (log : list call) : nat :=
  match log with
  | [] => 0
  | CallTrain :: log' => S (count_trains log')
  | _ :: log' => count_trains log'
  end.

Fixpoint count_syncs (log : list call) : nat :=
  match log with
  | [] => 0
  | CallSync :: log' => S (count_syncs log')
  | _ :: log' => count_syncs log'
  end.

Fixpoint count_decays (log : list call) : nat :=
  match log with
  | [] => 0
  | CallDecay :: log' => S (count_decays log')
  | _ :: log' => count_decays log'
  end.

Fixpoint count_steps (log : list call) : nat :=
  match log with
  | [] => 0
  | CallStep :: log' => S (count_steps log')
  | _ :: log' => count_steps log'
  end.

(** What the training loop keeps true of its agent: the buffer's
    pointer and flag are those after [total_steps] stores, the exploration rate has
    been decayed once per call in the log, and the log holds one call of
    [train] per step at which the schedule asks for one. *)
Definition agent_tracks {R} {SR : Scalar R} {NN : Approximator R} {E : Env R}
    (cfg : TrainConfig) (ag0 : DDQNAgent R) (st : Run R) : Prop :=
  let ag := agent st in
  let C := memory_buffer_size ag0 in
  memory_buffer_size ag = C /\
  arrays_sized ag /\
  memory_buffer_pointer ag = total_steps st mod C /\
  buffer_full ag = bool_decide (C <= total_steps st) /\
  epsilon_decay ag = epsilon_decay ag0 /\
  min_epsilon ag = min_epsilon ag0 /\
  epsilon ag = epsilon (decay_times (count_decays (calls st)) ag0) /\
  count_trains (calls st)
  = total_steps st / q_network_update_freq cfg
    - (batch_size cfg - 1) / q_network_update_freq cfg.

(** The float agent after its three stores. *)
Definition float_filled_agent : DDQNAgent float (NN := dense_network) :=
  match store_all float_agent float_transitions with
  | Ok self => self
  | Raise _ => float_agent
  end.

(** Parameters, of the shapes of the tiny networks, of a network that
    answers [b; 0] whatever the state. *)
Definition biased_weights (b : float) : list (list float) :=
  [ repeat 0%float 64; repeat 0%float 64; repeat 0%float 4096;
    repeat 0%float 64; repeat 0%float 128; [b; 0%float] ].

(** The filled float agent with such a target network. *)
Definition biased_agent (b : float) : DDQNAgent float (NN := dense_network) :=
  set_q_target_model float_filled_agent
    {| weights := biased_weights b;
       optimizer := optimizer (q_target_model float_filled_agent) |}.


(** An agent whose exploration schedule has been assigned. *)
Definition with_schedule {R} {SR : Scalar R} {NN : Approximator R}
    (self : DDQNAgent R) (eps decay floor : R) : DDQNAgent R :=
  {| n_actions := n_actions self; lr := lr self; gamma := gamma self;
     tau := tau self; epsilon := eps;
     epsilon_decay := decay; min_epsilon := floor;
     memory_buffer_size := memory_buffer_size self;
     memory_buffer_pointer := memory_buffer_pointer self;
     buffer_full := buffer_full self;
     memory_buffer_current_state := memory_buffer_current_state self;
     memory_buffer_next_state := memory_buffer_next_state self;
     memory_buffer_action := memory_buffer_action self;
     memory_buffer_reward := memory_buffer_reward self;
     memory_buffer_done := memory_buffer_done self;
     q_model := q_model self;
     q_target_model := q_target_model self |}.

(** * Properties *)

(** ** The exception monad *)

Lemma bind_Ok {A B} (m : result A) (k : A -> result B) (y : B) :
  bind m k = Ok y -> exists x, m = Ok x /\ k x = Ok y.
Proof. destruct m as [x|e]; simpl; [eauto | discriminate]. Qed.

(** Split a hypothesis [let* x := m in k = Ok y]. *)
Ltac bind_inv H :=
  let x := fresh "x" in
  let Hm := fresh "Hm" in
  apply bind_Ok in H; destruct H as (x & Hm & H).

Ltac inv_Ok H := injection H as H; subst.

Lemma traverse_length {A B} (f : A -> result B) (l : list A) (ys : list B) :
  traverse f l = Ok ys -> length ys = length l.
Proof.
  revert ys. induction l as [|x l IH]; simpl; intros ys Hy.
  - inv_Ok Hy. reflexivity.
  - bind_inv Hy. bind_inv Hy. inv_Ok Hy. simpl. f_equal. eauto.
Qed.

Lemma traverse_lookup {A B} (f : A -> result B) (l : list A) (ys : list B) k x :
  traverse f l = Ok ys -> l !! k = Some x ->
  exists y, f x = Ok y /\ ys !! k = Some y.
Proof.
  revert ys k. induction l as [|x0 l IH]; simpl; intros ys k Hy Hk.
  - discriminate.
  - bind_inv Hy. bind_inv Hy. inv_Ok Hy.
    destruct k as [|k]; simpl in *.
    + inv_Ok Hk. eauto.
    + eauto.
Qed.

Lemma traverse_total {A B} (f : A -> result B) (l : list A) :
  (forall x, x ∈ l -> exists y, f x = Ok y) -> exists ys, traverse f l = Ok ys.
Proof.
  induction l as [|x l IH]; simpl; intros Hf; [eauto|].
  destruct (Hf x) as [y Hy]; [left|]. rewrite Hy. simpl.
  destruct IH as [ys Hys]; [intros; apply Hf; by right|].
  rewrite Hys. simpl. eauto.
Qed.

(** ** NumPy indexing *)

Lemma np_set_Ok {A} (arr : list A) i x arr' :
  np_set arr i x = Ok arr' -> i < length arr /\ arr' = <[i := x]> arr.
Proof. unfold np_set. case_decide; [|discriminate]. intros Hs. inv_Ok Hs. auto. Qed.

Lemma np_set_in_range {A} (arr : list A) i x :
  i < length arr -> np_set arr i x = Ok (<[i := x]> arr).
Proof. intros Hi. unfold np_set. case_decide; [reflexivity | lia]. Qed.

Lemma np_get_Ok {A} (arr : list A) i x :
  np_get arr i = Ok x <-> arr !! i = Some x.
Proof.
  unfold np_get. destruct (arr !! i); split; intros Hx;
    try discriminate; congruence.
Qed.

Lemma np_take_lookup {A} (arr : list A) idx xs k i :
  np_take arr idx = Ok xs -> idx !! k = Some i ->
  exists x, arr !! i = Some x /\ xs !! k = Some x.
Proof.
  intros Ht Hk. destruct (traverse_lookup _ _ _ _ _ Ht Hk) as (x & Hx & Hxs).
  apply np_get_Ok in Hx. eauto.
Qed.

Lemma np_take_total {A} (arr : list A) idx :
  (forall i, i ∈ idx -> i < length arr) -> exists xs, np_take arr idx = Ok xs.
Proof.
  intros Hi. apply traverse_total. intros i Hin.
  destruct (lookup_lt_is_Some_2 arr i (Hi i Hin)) as [x Hx].
  exists x. by apply np_get_Ok.
Qed.

(** ** The replay buffer *)

Lemma mod_window_ne (C i n : nat) :
  i < n -> n < i + C -> i mod C <> n mod C.
Proof.
  intros Hin HnC Heq.
  assert (HC : C <> 0) by lia.
  pose proof (Nat.div_mod_eq i C) as Hi.
  pose proof (Nat.div_mod_eq n C) as Hn.
  rewrite Heq in Hi.
  assert (Hq : i / C < n / C) by nia.
  nia.
Qed.

Section Buffer.
Context {R : Type} {SR : Scalar R} {NN : Approximator R}.

(** What one store does to the agent. *)
Lemma store_transition_spec (self self' : DDQNAgent R) (t : Transition R) :
  store_transition self t = Ok self' ->
  let p := memory_buffer_pointer self in
  let wrap := bool_decide (memory_buffer_size self <= S p) in
  memory_buffer_current_state self' = <[p := t_state t]> (memory_buffer_current_state self) /\
  memory_buffer_next_state self' = <[p := t_next_state t]> (memory_buffer_next_state self) /\
  memory_buffer_action self' = <[p := sc_of_int (t_action t)]> (memory_buffer_action self) /\
  memory_buffer_reward self' = <[p := t_reward t]> (memory_buffer_reward self) /\
  memory_buffer_done self' = <[p := sc_of_bool (t_done t)]> (memory_buffer_done self) /\
  memory_buffer_size self' = memory_buffer_size self /\
  memory_buffer_pointer self' = (if wrap then 0 else S p) /\
  buffer_full self' = (if wrap then true else buffer_full self).
Proof.
  unfold store_transition, store_episode. intros Hs. simpl in Hs.
  repeat (bind_inv Hs).
  repeat match goal with
         | Hm : np_set _ _ _ = Ok _ |- _ => apply np_set_Ok in Hm; destruct Hm as [_ ->]
         end.
  inv_Ok Hs. simpl. repeat split; reflexivity.
Qed.

Lemma store_transition_frame (self self' : DDQNAgent R) (t : Transition R) :
  store_transition self t = Ok self' ->
  n_actions self' = n_actions self /\ lr self' = lr self /\
  gamma self' = gamma self /\ tau self' = tau self /\
  epsilon self' = epsilon self /\ epsilon_decay self' = epsilon_decay self /\
  min_epsilon self' = min_epsilon self /\
  q_model self' = q_model self /\ q_target_model self' = q_target_model self.
Proof.
  unfold store_transition, store_episode. intros Hs. simpl in Hs.
  repeat (bind_inv Hs). inv_Ok Hs. simpl. repeat split; reflexivity.
Qed.

(** A store succeeds when the pointer is inside the arrays. *)
Lemma store_transition_total (self : DDQNAgent R) (t : Transition R) :
  arrays_sized self ->
  memory_buffer_pointer self < memory_buffer_size self ->
  exists self', store_transition self t = Ok self'.
Proof.
  intros (H1 & H2 & H3 & H4 & H5) Hp.
  unfold store_transition, store_episode. simpl.
  rewrite !np_set_in_range by lia. simpl. eauto.
Qed.

Lemma after_stores_nil C (self : DDQNAgent R) :
  0 < C -> empty_buffer C self -> after_stores C [] self.
Proof.
  intros HC (Hsz & Hp & Hf & Hlen). unfold after_stores. simpl.
  split; [assumption|]. split; [assumption|]. split; [|split].
  - rewrite Hp. symmetry. apply Nat.Div0.mod_0_l.
  - rewrite Hf. symmetry. apply bool_decide_eq_false. lia.
  - intros i t Hi. discriminate.
Qed.

Lemma after_stores_snoc C ts t (self self' : DDQNAgent R) :
  0 < C -> after_stores C ts self ->
  store_transition self t = Ok self' ->
  after_stores C (ts ++ [t]) self'.
Proof.
  intros HC (Hsz & Hlen & Hp & Hf & Hslots) Hs.
  pose proof (store_transition_spec _ _ _ Hs) as Hspec. simpl in Hspec.
  destruct Hspec as (E1 & E2 & E3 & E4 & E5 & E6 & E7 & E8).
  destruct Hlen as (L1 & L2 & L3 & L4 & L5).
  set (n := length ts) in *.
  assert (Hplt : n mod C < C) by (apply Nat.mod_upper_bound; lia).
  assert (Hdm : n = C * (n / C) + n mod C) by apply Nat.div_mod_eq.
  unfold after_stores. rewrite length_app. simpl.
  replace (length ts + 1) with (S n) by (unfold n; lia).
  split; [congruence|]. split.
  { unfold arrays_sized. rewrite E1, E2, E3, E4, E5, E6, !length_insert. auto. }
  rewrite Hsz, Hp in E7, E8.
  assert (Hdm' : S n = C * (S n / C) + S n mod C) by apply Nat.div_mod_eq.
  assert (Hplt' : S n mod C < C) by (apply Nat.mod_upper_bound; lia).
  split; [|split].
  - rewrite E7. case_bool_decide as Hw.
    + assert (Hq : S n = C * S (n / C)) by nia.
      rewrite Hq, Nat.mul_comm. symmetry. apply Nat.Div0.mod_mul.
    + apply Nat.mod_unique with (q := n / C); lia.
  - rewrite E8, Hf. case_bool_decide as Hw.
    + symmetry. apply bool_decide_eq_true. nia.
    + apply bool_decide_ext. split; [lia|]. intros HS.
      destruct (decide (C <= n)) as [|Hlt]; [assumption|].
      rewrite Nat.mod_small in Hw by lia. lia.
  - intros i t0 Hi Hwin.
    assert (Hile : i < S n).
    { apply lookup_lt_Some in Hi. rewrite length_app in Hi. simpl in Hi. unfold n. lia. }
    unfold slot_holds. rewrite E1, E2, E3, E4, E5, Hp.
    destruct (decide (i = n)) as [->|Hne].
    + rewrite lookup_app_r in Hi by (unfold n; lia).
      replace (n - length ts) with 0 in Hi by (unfold n; lia).
      simpl in Hi. inv_Ok Hi.
      rewrite !list_lookup_insert_eq by lia. auto.
    + rewrite lookup_app_l in Hi by (unfold n; lia).
      assert (Hmod : n mod C <> i mod C).
      { intros Heq. apply (mod_window_ne C i n); [lia | lia | congruence]. }
      rewrite !list_lookup_insert_ne by assumption.
      apply Hslots; [assumption | lia].
Qed.

Lemma store_all_app (self : DDQNAgent R) ts1 ts2 :
  store_all self (ts1 ++ ts2) =
  (let* self' := store_all self ts1 in store_all self' ts2).
Proof.
  revert self. induction ts1 as [|t ts1 IH]; intros self; simpl; [reflexivity|].
  destruct (store_transition self t); simpl; auto.
Qed.

Lemma store_all_after C ts (self self' : DDQNAgent R) :
  0 < C -> empty_buffer C self ->
  store_all self ts = Ok self' -> after_stores C ts self'.
Proof.
  intros HC Hempty. revert self'.
  induction ts as [|t ts IH] using rev_ind; intros self' Hs.
  - simpl in Hs. inv_Ok Hs. by apply after_stores_nil.
  - rewrite store_all_app in Hs. bind_inv Hs. simpl in Hs. bind_inv Hs. inv_Ok Hs.
    eapply after_stores_snoc; eauto.
Qed.

(** Every sequence of stores succeeds when the capacity is positive. *)
Lemma store_all_total C ts (self : DDQNAgent R) :
  0 < C -> empty_buffer C self -> exists self', store_all self ts = Ok self'.
Proof.
  intros HC Hempty. induction ts as [|t ts IH] using rev_ind.
  - simpl. eauto.
  - destruct IH as [a Ha]. rewrite store_all_app, Ha. simpl.
    destruct (store_all_after C ts self a HC Hempty Ha) as (Hsz & Hlen & Hp & _).
    destruct (store_transition_total a t Hlen) as [a' Ha'].
    { rewrite Hp, Hsz. apply Nat.mod_upper_bound. lia. }
    rewrite Ha'. simpl. eauto.
Qed.
End Buffer.

Section Constructor.
Context {R : Type} {SR : Scalar R} {NN : Approximator R}.

Lemma np_empty_length (junk : nat -> R) n : length (np_empty junk n) = n.
Proof. unfold np_empty. by rewrite length_map, length_seq. Qed.

Lemma np_empty2_length (junk : nat -> nat -> R) n c : length (np_empty2 junk n c) = n.
Proof. unfold np_empty2. by rewrite length_map, length_seq. Qed.

(** [__init__] leaves an empty buffer. *)
Lemma DDQNAgent_sized_empty C junk init_q init_target state_size action_size :
  empty_buffer C (DDQNAgent_sized C junk init_q init_target state_size action_size).
Proof.
  unfold empty_buffer, arrays_sized. simpl.
  rewrite !np_empty_length, !np_empty2_length. auto 10.
Qed.

End Constructor.

Section BufferClaims.
Context {R : Type} {SR : Scalar R} {NN : Approximator R}.

Lemma buffer_end_ptr_after C ts (self : DDQNAgent R) :
  0 < C -> after_stores C ts self ->
  buffer_end_ptr self = Nat.min (length ts) C.
Proof.
  intros HC (Hsz & _ & Hp & Hf & _). unfold buffer_end_ptr.
  rewrite Hf, Hp, Hsz. case_bool_decide as Hn; simpl; [lia|].
  rewrite Nat.mod_small by lia. lia.
Qed.

(** C3, amended: stores into an empty buffer of capacity [C >= 1] all
    succeed; after [n < C] stores the valid range has [n] entries and
    the buffer is not full; after [C] stores the buffer is full and the
    valid range is [C]; the [(C+1)]-th store lands in slot 0; and after
    any number of stores, each of the last [C] transitions stored lives
    at its index modulo [C]. *)
Theorem store_episode_circular C (self : DDQNAgent R) (ts : list (Transition R)) :
  0 < C -> empty_buffer C self ->
  exists self',
    store_all self ts = Ok self' /\
    let n := length ts in
    (n < C -> buffer_end_ptr self' = n /\ buffer_full self' = false) /\
    (n = C -> buffer_full self' = true /\ buffer_end_ptr self' = C) /\
    (C <= n -> buffer_full self' = true /\ buffer_end_ptr self' = C) /\
    (n = S C -> forall t, ts !! C = Some t -> slot_holds self' 0 t) /\
    (forall i t, ts !! i = Some t -> n <= i + C -> slot_holds self' (i mod C) t).
Proof.
  intros HC Hempty.
  destruct (store_all_total C ts self HC Hempty) as [self' Hs].
  exists self'. split; [assumption|].
  pose proof (store_all_after C ts self self' HC Hempty Hs) as Hafter.
  pose proof (buffer_end_ptr_after C ts self' HC Hafter) as Hend.
  destruct Hafter as (Hsz & Hlen & Hp & Hf & Hslots).
  cbv zeta. split; [|split; [|split; [|split]]].
  - intros Hn. split; [lia|]. rewrite Hf. apply bool_decide_eq_false. lia.
  - intros Hn. split; [|lia]. rewrite Hf. apply bool_decide_eq_true. lia.
  - intros Hn. split; [|lia]. rewrite Hf. by apply bool_decide_eq_true.
  - intros Hn t Ht. specialize (Hslots C t Ht).
    rewrite Nat.Div0.mod_same in Hslots. apply Hslots. lia.
  - assumption.
Qed.
End BufferClaims.

(** Three stores into a buffer of capacity two. *)
Lemma store_episode_circular_witness :
  exists self',
    store_all tiny_agent sample_transitions = Ok self' /\
    buffer_full self' = true /\ buffer_end_ptr self' = 2 /\
    memory_buffer_reward self' !! 0 = Some 2%Q.
Proof.
  destruct (store_episode_circular 2 tiny_agent sample_transitions)
    as (self' & Hs & _ & _ & Hfull & Hzero & _).
  - lia.
  - apply DDQNAgent_sized_empty.
  - exists self'. split; [exact Hs|].
    destruct Hfull as [Hf He]; [simpl; lia|].
    split; [exact Hf|]. split; [exact He|].
    destruct (Hzero eq_refl _ eq_refl) as (_ & _ & _ & Hr & _). exact Hr.
Defined.

(** C3 as stated fails where the buffer has just been filled: after
    [n = C = 2] stores the flag is already set. *)
Lemma store_episode_full_at_capacity :
  exists self',
    store_all tiny_agent (take 2 sample_transitions) = Ok self' /\
    length (take 2 sample_transitions) <= memory_buffer_size tiny_agent /\
    buffer_full self' <> false.
Proof.
  assert (Hempty : empty_buffer 2 tiny_agent) by apply DDQNAgent_sized_empty.
  destruct (store_all_total 2 (take 2 sample_transitions) tiny_agent) as [self' Hs];
    [lia | exact Hempty |].
  exists self'. split; [exact Hs|]. split; [simpl; lia|].
  destruct (store_all_after 2 _ _ _ (Nat.lt_0_succ 1) Hempty Hs) as (_ & _ & _ & Hf & _).
  rewrite Hf. discriminate.
Qed.

(** ** Integers stored as binary64 floats *)

Lemma digits2_iter_xO p k :
  digits2_pos (Pos.iter xO p k) = (digits2_pos p + k)%positive.
Proof.
  induction k as [|k IH] using Pos.peano_ind.
  - simpl. lia.
  - rewrite Pos.iter_succ. simpl. rewrite IH. lia.
Qed.

Lemma digits2_lower p : (2 ^ (Zpos (digits2_pos p) - 1) <= Zpos p)%Z.
Proof.
  induction p as [p IH|p IH|]; simpl digits2_pos.
  - rewrite Pos2Z.inj_succ.
    replace (Z.succ (Zpos (digits2_pos p)) - 1)%Z
      with (Z.succ (Zpos (digits2_pos p) - 1)) by lia.
    rewrite Z.pow_succ_r by lia. lia.
  - rewrite Pos2Z.inj_succ.
    replace (Z.succ (Zpos (digits2_pos p)) - 1)%Z
      with (Z.succ (Zpos (digits2_pos p) - 1)) by lia.
    rewrite Z.pow_succ_r by lia. lia.
  - simpl. lia.
Qed.

Lemma digits2_le_53 p : (Zpos p < 2 ^ 53)%Z -> (Zpos (digits2_pos p) <= 53)%Z.
Proof.
  intros Hp. pose proof (digits2_lower p) as Hl.
  destruct (Z_le_gt_dec (Zpos (digits2_pos p)) 53) as [|Hgt]; [assumption|].
  exfalso.
  assert (2 ^ 53 <= 2 ^ (Zpos (digits2_pos p) - 1))%Z
    by (apply Z.pow_le_mono_r; lia).
  lia.
Qed.

Lemma iter_xO_mul p k : Zpos (Pos.iter xO p k) = (Zpos p * 2 ^ Zpos k)%Z.
Proof.
  induction k as [|k IH] using Pos.peano_ind.
  - simpl. lia.
  - rewrite Pos.iter_succ, Pos2Z.inj_succ, Z.pow_succ_r by lia.
    rewrite Pos2Z.inj_xO, IH. lia.
Qed.

(** A mantissa of 53 digits is not shifted. *)
Lemma shr_fexp_canonical m e :
  Zpos (digits2_pos m) = 53%Z -> (-1074 <= e)%Z ->
  shr_fexp prec emax (Zpos m) e loc_Exact
  = (Build_shr_record (Zpos m) false false, e).
Proof.
  intros Hd He. unfold shr_fexp. simpl Zdigits2.
  assert (Hf : IntDef.Z.sub
                 (fexp prec emax (IntDef.Z.add (Zpos (digits2_pos m)) e)) e = 0%Z).
  { unfold fexp, SpecFloat.emin, prec, emax. rewrite Hd. lia. }
  rewrite Hf. reflexivity.
Qed.

Lemma binary_round_aux_canonical m e :
  Zpos (digits2_pos m) = 53%Z -> (-1074 <= e <= 971)%Z ->
  binary_round_aux prec emax false (Zpos m) e loc_Exact = S754_finite false m e.
Proof.
  intros Hd He. unfold binary_round_aux.
  rewrite shr_fexp_canonical by lia. simpl.
  rewrite shr_fexp_canonical by lia. simpl.
  match goal with
  | |- context [Z.leb e ?x] => destruct (Z.leb_spec e x) as [_|Hgt]
  end; [reflexivity|].
  unfold emax, prec in Hgt. lia.
Qed.

(** An integer below [2^53] is normalised without rounding. *)
Lemma binary_normalize_exact p :
  (Zpos p < 2 ^ 53)%Z ->
  exists m e,
    binary_normalize prec emax (Zpos p) 0 false = S754_finite false m e /\
    (-52 <= e <= 0)%Z /\ Zpos m = (Zpos p * 2 ^ (- e))%Z.
Proof.
  intros Hp. pose proof (digits2_le_53 p Hp) as Hd.
  assert (Hd1 : (1 <= Zpos (digits2_pos p))%Z) by lia.
  unfold binary_normalize, binary_round.
  assert (Hfexp : fexp prec emax (IntDef.Z.add (Zpos (digits2_pos p)) 0)
                  = (Zpos (digits2_pos p) - 53)%Z).
  { unfold fexp, SpecFloat.emin, prec, emax. lia. }
  rewrite Hfexp. unfold shl_align.
  destruct (IntDef.Z.sub (Zpos (digits2_pos p) - 53) 0) as [|k|k] eqn:E; try lia.
  - exists p, 0%Z. split; [|split; [lia|simpl; lia]].
    apply binary_round_aux_canonical; lia.
  - exists (Pos.iter xO p k), (Zpos (digits2_pos p) - 53)%Z.
    split; [|split; [lia|]].
    + apply binary_round_aux_canonical; [|lia].
      rewrite digits2_iter_xO. lia.
    + rewrite iter_xO_mul. f_equal. f_equal. lia.
Qed.

(** The cast back to an integer recovers every integer below [2^53]. *)
Lemma float_int_roundtrip a :
  (0 <= a < 2 ^ 53)%Z -> float_to_int (float_of_int a) = a.
Proof.
  intros [H0 H1]. unfold float_of_int.
  destruct (a <? 0)%Z eqn:E; [apply Z.ltb_lt in E; lia|].
  unfold float_to_int. rewrite of_uint63_spec.
  rewrite Uint63.of_Z_spec. rewrite Z.mod_small by (change wB with (2 ^ 63)%Z; lia).
  destruct a as [|p|p]; [reflexivity| |lia].
  destruct (binary_normalize_exact p H1) as (m & e & -> & He & Hm).
  assert (Hv : match e with
               | Z.neg k => Z.shiftr (Z.pos m) (Z.pos k)
               | _ => Z.shiftl (Z.pos m) e
               end = Zpos p).
  { destruct e as [|k|k]; try lia.
    - simpl in Hm. rewrite Z.shiftl_0_r. lia.
    - rewrite Z.shiftr_div_pow2 by lia. rewrite Hm.
      replace (- Z.neg k)%Z with (Z.pos k) by lia. apply Z.div_mul. lia. }
  rewrite Hv. destruct (Z.pos p <? 2 ^ 63)%Z eqn:E3; [reflexivity|].
  apply Z.ltb_ge in E3. lia.
Qed.

Lemma float_of_bool_exact :
  sc_of_bool (R := float) true = 1%float /\ sc_of_bool (R := float) false = 0%float.
Proof. split; reflexivity. Qed.

(** ** The order of binary64 *)

Ltac compare_cases :=
  repeat match goal with
         | H : context [Z.compare ?a ?b] |- _ =>
             destruct (Z.compare_spec a b)
         | |- context [Z.compare ?a ?b] =>
             destruct (Z.compare_spec a b)
         | H : context [Pos.compare_cont Eq ?a ?b] |- _ =>
             let C := fresh "C" in
             pose proof (Pos.compare_spec a b) as C; unfold Pos.compare in C;
             destruct C
         | |- context [Pos.compare_cont Eq ?a ?b] =>
             let C := fresh "C" in
             pose proof (Pos.compare_spec a b) as C; unfold Pos.compare in C;
             destruct C
         end.

Lemma SFcompare_refl x : x <> S754_nan -> SFcompare x x = Some Eq.
Proof.
  destruct x as [s|s| |s m e]; simpl; try congruence; intros _;
    destruct s; rewrite ?Z.compare_refl, ?Pos.compare_cont_refl; reflexivity.
Qed.

Lemma SFleb_trans a b c :
  SFleb a b = true -> SFleb b c = true -> SFleb a c = true.
Proof.
  unfold SFleb, SFcompare.
  destruct a as [[]|[]| |[] ma ea], b as [[]|[]| |[] mb eb], c as [[]|[]| |[] mc ec];
    try (intros; reflexivity); try (intros; discriminate);
    intros Hab Hbc; compare_cases; simpl in *;
    first [reflexivity | discriminate | lia].
Qed.

Lemma SFltb_false_leb a b :
  a <> S754_nan -> b <> S754_nan -> SFltb a b = false -> SFleb b a = true.
Proof.
  unfold SFltb, SFleb, SFcompare.
  destruct a as [[]|[]| |[] ma ea], b as [[]|[]| |[] mb eb];
    try congruence; try (intros; reflexivity); try (intros; discriminate);
    intros _ _ Hab; compare_cases; simpl in *;
    first [reflexivity | discriminate | lia].
Qed.

Lemma SFltb_leb a b : SFltb a b = true -> SFleb a b = true.
Proof.
  unfold SFltb, SFleb. destruct (SFcompare a b) as [[]|]; congruence.
Qed.

(** A float is NaN, or finite, by its class. *)
Lemma is_nan_spec f : PrimFloat.is_nan f = true <-> Prim2SF f = S754_nan.
Proof.
  unfold PrimFloat.is_nan. rewrite FloatAxioms.eqb_spec. unfold SFeqb.
  destruct (Prim2SF f) as [s|s| |s m e] eqn:E.
  3: simpl; split; reflexivity.
  all: rewrite SFcompare_refl by congruence; simpl; split; congruence.
Qed.

Lemma is_nan_false f : PrimFloat.is_nan f = false <-> Prim2SF f <> S754_nan.
Proof.
  rewrite <- is_nan_spec. destruct (PrimFloat.is_nan f); split; congruence.
Qed.

Lemma is_finite_spec f :
  PrimFloat.is_finite f = true <->
  match Prim2SF f with
  | S754_zero _ | S754_finite _ _ _ => True
  | _ => False
  end.
Proof.
  unfold PrimFloat.is_finite, PrimFloat.is_infinity.
  destruct (PrimFloat.is_nan f) eqn:En.
  - apply is_nan_spec in En. rewrite En. simpl. split; [discriminate | tauto].
  - apply is_nan_false in En. rewrite FloatAxioms.eqb_spec, FloatAxioms.abs_spec.
    change (Prim2SF infinity) with (S754_infinity false).
    destruct (Prim2SF f) as [s|s| |s m e]; simpl; try tauto; try congruence.
    split; [discriminate | tauto].
Qed.

Lemma is_finite_false f :
  PrimFloat.is_finite f = false <->
  match Prim2SF f with
  | S754_zero _ | S754_finite _ _ _ => False
  | _ => True
  end.
Proof.
  rewrite <- not_true_iff_false, is_finite_spec. destruct (Prim2SF f); tauto.
Qed.

Lemma float_leb_refl (u : float) :
  PrimFloat.is_nan u = false -> (u <=? u)%float = true.
Proof.
  intros Hu. rewrite FloatAxioms.leb_spec. unfold SFleb.
  rewrite SFcompare_refl; [reflexivity | by apply is_nan_false].
Qed.

Lemma float_leb_trans (u v w : float) :
  (u <=? v)%float = true -> (v <=? w)%float = true -> (u <=? w)%float = true.
Proof. rewrite !FloatAxioms.leb_spec. apply SFleb_trans. Qed.

(** One step of [np.max] on binary64. *)
Lemma amax_step_float (best x : float) :
  (PrimFloat.is_nan best = true -> amax_step best x = best) /\
  (PrimFloat.is_nan best = false -> PrimFloat.is_nan x = true ->
   amax_step best x = x) /\
  (PrimFloat.is_nan best = false -> PrimFloat.is_nan x = false ->
   (amax_step best x = best \/ amax_step best x = x) /\
   (best <=? amax_step best x)%float = true /\
   (x <=? amax_step best x)%float = true).
Proof.
  unfold amax_step. simpl.
  split; [by intros ->|]. split; [by intros -> ->|].
  intros Hb Hx. rewrite Hb, Hx.
  destruct (best <? x)%float eqn:Elt; rewrite FloatAxioms.ltb_spec in Elt.
  - split; [by right|]. split; [|by apply float_leb_refl].
    rewrite FloatAxioms.leb_spec. by apply SFltb_leb.
  - split; [by left|]. split; [by apply float_leb_refl|].
    rewrite FloatAxioms.leb_spec.
    apply SFltb_false_leb; [by apply is_nan_false | by apply is_nan_false | assumption].
Qed.

(** [np.max] on binary64: the result is an entry of the row; it is NaN
    when the row holds a NaN; otherwise no entry is above it. *)
Lemma amax_fold_float (rest : list float) (best : float) :
  (fold_left amax_step rest best = best \/ fold_left amax_step rest best ∈ rest) /\
  (PrimFloat.is_nan best = true -> fold_left amax_step rest best = best) /\
  ((exists v, v ∈ rest /\ PrimFloat.is_nan v = true) ->
   PrimFloat.is_nan best = false ->
   PrimFloat.is_nan (fold_left amax_step rest best) = true) /\
  (PrimFloat.is_nan best = false ->
   (forall v, v ∈ rest -> PrimFloat.is_nan v = false) ->
   (best <=? fold_left amax_step rest best)%float = true /\
   forall v, v ∈ rest -> (v <=? fold_left amax_step rest best)%float = true).
Proof.
  assert (Hcases : forall u, PrimFloat.is_nan u = true \/ PrimFloat.is_nan u = false)
    by (intros u; destruct (PrimFloat.is_nan u); auto).
  revert best. induction rest as [|x rest IH]; intros best.
  - simpl. split; [auto|]. split; [auto|]. split.
    + intros (v & Hv & _). by apply elem_of_nil in Hv.
    + intros Hb _. split; [by apply float_leb_refl|].
      intros v Hv. by apply elem_of_nil in Hv.
  - simpl fold_left.
    destruct (IH (amax_step best x)) as (Hin & Hnan & Hex & Hord).
    destruct (amax_step_float best x) as (Sn & Sx & Sok).
    split; [|split; [|split]].
    + destruct Hin as [->|Hin]; [|right; by right].
      destruct (Hcases best) as [Eb|Eb]; [left; auto|].
      destruct (Hcases x) as [Ex|Ex].
      * rewrite (Sx Eb Ex). right. left.
      * destruct (Sok Eb Ex) as ([->| ->] & _); [by left | right; left].
    + intros Hb. rewrite (Sn Hb). by apply IH.
    + intros (v & Hv & Hvn) Hb.
      destruct (Hcases x) as [Ex|Ex].
      * rewrite (Sx Hb Ex). destruct (IH x) as (_ & -> & _); assumption.
      * apply elem_of_cons in Hv as [->|Hv]; [congruence|].
        destruct (Sok Hb Ex) as (Hor & _). apply Hex; [eauto|].
        destruct Hor as [-> | ->]; assumption.
    + intros Hb Hall.
      assert (Hx : PrimFloat.is_nan x = false) by (apply Hall; left).
      destruct (Sok Hb Hx) as (Hor & Hle1 & Hle2).
      destruct Hord as (Hle & Hrest).
      * destruct Hor as [-> | ->]; assumption.
      * intros v Hv. apply Hall. by right.
      * split; [by apply (float_leb_trans _ (amax_step best x))|].
        intros v Hv. apply elem_of_cons in Hv as [->|Hv]; [|by apply Hrest].
        by apply (float_leb_trans _ (amax_step best x)).
Qed.

Lemma np_max_float (row : list float) (m : float) :
  np_max row = Ok m ->
  m ∈ row /\
  ((exists v, v ∈ row /\ PrimFloat.is_nan v = true) -> PrimFloat.is_nan m = true) /\
  ((forall v, v ∈ row -> PrimFloat.is_nan v = false) ->
   forall v, v ∈ row -> (v <=? m)%float = true).
Proof.
  destruct row as [|x rest]; [discriminate|]. simpl. intros Hm. inv_Ok Hm.
  destruct (amax_fold_float rest x) as (Hin & Hnan & Hex & Hord).
  split; [destruct Hin as [->|Hin]; [left | by right]|]. split.
  - intros (v & Hv & Hvn).
    assert (Ex : PrimFloat.is_nan x = true \/ PrimFloat.is_nan x = false)
      by (destruct (PrimFloat.is_nan x); auto).
    destruct Ex as [Ex|Ex].
    + by rewrite (Hnan Ex).
    + apply elem_of_cons in Hv as [->|Hv]; [congruence|]. apply Hex; eauto.
  - intros Hall v Hv.
    destruct Hord as (Hle & Hrest).
    + apply Hall. left.
    + intros u Hu. apply Hall. by right.
    + apply elem_of_cons in Hv as [->|Hv]; [assumption | by apply Hrest].
Qed.

(** Line 87 for a terminal transition: [1 - 1.0] is [0.0], and a zero
    times a finite number is a zero. *)
Lemma bellman_target_terminal_finite (gm r m : float) :
  PrimFloat.is_finite gm = true -> PrimFloat.is_finite m = true ->
  PrimFloat.is_nan r = false ->
  (r + gm * (1 - 1) * m =? r)%float = true.
Proof.
  intros Hg Hm Hr.
  apply is_finite_spec in Hg. apply is_finite_spec in Hm. apply is_nan_false in Hr.
  rewrite FloatAxioms.eqb_spec, FloatAxioms.add_spec, !FloatAxioms.mul_spec.
  change (Prim2SF (1 - 1)%float) with (S754_zero false).
  unfold SFeqb.
  destruct (Prim2SF gm) as [sg|sg| |sg mg eg]; try tauto;
    destruct (Prim2SF m) as [sm|sm| |sm mm em]; try tauto;
    destruct (Prim2SF r) as [sr|sr| |sr mr er] eqn:Er; try congruence;
    simpl; unfold SF64add; simpl;
    repeat match goal with
           | |- context [xorb ?a ?b] => destruct a, b; simpl
           | |- context [match ?s with true => _ | false => _ end] => destruct s; simpl
           end;
    try reflexivity;
    rewrite ?Z.compare_refl, ?Pos.compare_cont_refl; reflexivity.
Qed.

Lemma bellman_target_terminal_overflow (gm r m : float) :
  PrimFloat.is_finite m = false ->
  PrimFloat.is_nan (r + gm * (1 - 1) * m)%float = true.
Proof.
  intros Hm. apply is_finite_false in Hm. apply is_nan_spec.
  rewrite FloatAxioms.add_spec, !FloatAxioms.mul_spec.
  change (Prim2SF (1 - 1)%float) with (S754_zero false).
  destruct (Prim2SF gm) as [sg|sg| |sg mg eg];
    destruct (Prim2SF m) as [sm|sm| |sm mm em]; try tauto;
    destruct (Prim2SF r) as [sr|sr| |sr mr er]; reflexivity.
Qed.

(** ** Rounding in binary64 never passes a representable bound *)

Lemma digits2_upper p : (Zpos p < 2 ^ Zpos (digits2_pos p))%Z.
Proof.
  induction p as [p IH|p IH|]; simpl digits2_pos.
  - rewrite Pos2Z.inj_succ, Z.pow_succ_r by lia. lia.
  - rewrite Pos2Z.inj_succ, Z.pow_succ_r by lia. lia.
  - simpl. lia.
Qed.

Lemma digits2_below p a :
  (0 <= a)%Z -> (Zpos p < 2 ^ a)%Z -> (Zpos (digits2_pos p) <= a)%Z.
Proof.
  intros Ha Hp. pose proof (digits2_lower p) as Hl.
  destruct (Z_le_gt_dec (Zpos (digits2_pos p)) a) as [|Hgt]; [assumption|].
  exfalso.
  assert (2 ^ a <= 2 ^ (Zpos (digits2_pos p) - 1))%Z
    by (apply Z.pow_le_mono_r; lia).
  lia.
Qed.

Lemma fexp_64 x : fexp prec emax x = Z.max (x - 53) (-1074).
Proof. reflexivity. Qed.

(** One shift to the right: the mantissa is halved, and the two
    location bits are clear only if they were and the bit shifted out
    is zero. *)
Lemma shr_1_spec m r s :
  (0 <= m)%Z ->
  shr_m (shr_1 (Build_shr_record m r s)) = (m / 2)%Z /\
  (shr_r (shr_1 (Build_shr_record m r s))
   || shr_s (shr_1 (Build_shr_record m r s)) = false
   <-> r || s = false /\ (m mod 2 = 0)%Z).
Proof.
  intros Hm.
  destruct m as [|[p|p|]|p]; try lia; simpl shr_1; simpl shr_m; simpl shr_r;
    simpl shr_s.
  - split; [reflexivity|]. simpl. tauto.
  - assert (Hd : (Zpos p~1 / 2 = Zpos p)%Z)
      by (symmetry; apply (Z.div_unique _ _ _ 1); lia).
    assert (Hr : (Zpos p~1 mod 2 = 1)%Z)
      by (symmetry; apply (Z.mod_unique _ _ (Zpos p)); lia).
    rewrite Hd, Hr. split; [reflexivity|]. simpl. split; [discriminate | lia].
  - assert (Hd : (Zpos p~0 / 2 = Zpos p)%Z)
      by (symmetry; apply (Z.div_unique _ _ _ 0); lia).
    assert (Hr : (Zpos p~0 mod 2 = 0)%Z)
      by (symmetry; apply (Z.mod_unique _ _ (Zpos p)); lia).
    rewrite Hd, Hr. split; [reflexivity|]. simpl. tauto.
  - split; [reflexivity|]. simpl. split; [discriminate|].
    intros [_ H]. discriminate H.
Qed.

Lemma shift_twice m a b :
  (0 <= m)%Z -> (0 < a)%Z -> (0 < b)%Z ->
  (m / 2 ^ a / 2 ^ b = m / 2 ^ (a + b))%Z /\
  ((m mod 2 ^ a = 0 /\ (m / 2 ^ a) mod 2 ^ b = 0)%Z <-> (m mod 2 ^ (a + b) = 0)%Z).
Proof.
  intros Hm Ha Hb.
  assert (Hpa : (0 < 2 ^ a)%Z) by (apply Z.pow_pos_nonneg; lia).
  assert (Hpb : (0 < 2 ^ b)%Z) by (apply Z.pow_pos_nonneg; lia).
  rewrite Z.pow_add_r by lia. split.
  - apply Z.div_div; lia.
  - rewrite Z.rem_mul_r by lia.
    pose proof (Z.mod_pos_bound m (2 ^ a) Hpa).
    pose proof (Z.mod_pos_bound (m / 2 ^ a) (2 ^ b) Hpb).
    split; [intros [-> ->]; lia | nia].
Qed.

Lemma iter_pos_xI {A} (f : A -> A) p x :
  SpecFloat.iter_pos f p~1 x = SpecFloat.iter_pos f p (SpecFloat.iter_pos f p (f x)).
Proof. reflexivity. Qed.

Lemma iter_pos_xO {A} (f : A -> A) p x :
  SpecFloat.iter_pos f p~0 x = SpecFloat.iter_pos f p (SpecFloat.iter_pos f p x).
Proof. reflexivity. Qed.

Lemma iter_shr_1 p : forall m r s,
  (0 <= m)%Z ->
  shr_m (SpecFloat.iter_pos shr_1 p (Build_shr_record m r s)) = (m / 2 ^ Zpos p)%Z /\
  (shr_r (SpecFloat.iter_pos shr_1 p (Build_shr_record m r s))
   || shr_s (SpecFloat.iter_pos shr_1 p (Build_shr_record m r s)) = false
   <-> r || s = false /\ (m mod 2 ^ Zpos p = 0)%Z).
Proof.
  assert (Hnn : forall m k, (0 <= m)%Z -> (0 < k)%Z -> (0 <= m / 2 ^ k)%Z).
  { intros m k Hm Hk. apply Z.div_pos; [assumption|]. apply Z.pow_pos_nonneg; lia. }
  induction p as [p IH|p IH|]; intros m r s Hm.
  - rewrite !iter_pos_xI.
    destruct (shr_1 (Build_shr_record m r s)) as [m1 r1 s1] eqn:E1.
    pose proof (shr_1_spec m r s Hm) as [H1 B1]. rewrite E1 in H1, B1.
    simpl in H1, B1.
    assert (Hm1 : (0 <= m1)%Z) by (rewrite H1; apply Z.div_pos; lia).
    destruct (SpecFloat.iter_pos shr_1 p (Build_shr_record m1 r1 s1)) as [m2 r2 s2] eqn:E2.
    pose proof (IH m1 r1 s1 Hm1) as [H2 B2]. rewrite E2 in H2, B2.
    simpl in H2, B2.
    assert (Hm2 : (0 <= m2)%Z) by (rewrite H2; apply Hnn; lia).
    pose proof (IH m2 r2 s2 Hm2) as [H3 B3].
    destruct (shift_twice m 1 (Zpos p) Hm ltac:(lia) ltac:(lia)) as [D1 M1].
    assert (H12 : (0 <= m / 2 ^ 1)%Z) by (apply Hnn; lia).
    destruct (shift_twice m (1 + Zpos p) (Zpos p) Hm ltac:(lia) ltac:(lia))
      as [D2 M2].
    replace (Zpos p~1) with (1 + Zpos p + Zpos p)%Z by lia.
    change (2 ^ 1)%Z with 2%Z in *.
    split.
    + rewrite H3, H2, H1, D1, D2. reflexivity.
    + rewrite B3, B2, B1, H2, H1, D1, <- M2, <- M1. tauto.
  - rewrite !iter_pos_xO.
    destruct (SpecFloat.iter_pos shr_1 p (Build_shr_record m r s)) as [m2 r2 s2] eqn:E2.
    pose proof (IH m r s Hm) as [H2 B2]. rewrite E2 in H2, B2.
    simpl in H2, B2.
    assert (Hm2 : (0 <= m2)%Z) by (rewrite H2; apply Hnn; lia).
    pose proof (IH m2 r2 s2 Hm2) as [H3 B3].
    destruct (shift_twice m (Zpos p) (Zpos p) Hm ltac:(lia) ltac:(lia)) as [D1 M1].
    replace (Zpos p~0) with (Zpos p + Zpos p)%Z by lia.
    split.
    + rewrite H3, H2, D1. reflexivity.
    + rewrite B3, B2, H2, <- M1. tauto.
  - change (SpecFloat.iter_pos shr_1 1 (Build_shr_record m r s))
      with (shr_1 (Build_shr_record m r s)).
    change (2 ^ 1)%Z with 2%Z. by apply shr_1_spec.
Qed.

Lemma round_nearest_even_bounds m l :
  (m <= round_nearest_even m l <= m + 1)%Z /\
  (l = loc_Exact -> round_nearest_even m l = m).
Proof.
  destruct l as [|[]]; simpl; try destruct (Z.even m); split; try lia; try reflexivity;
    discriminate.
Qed.

(** The shift to the format's exponent, with its rounding, seen from a
    bound [mb * 2^eb] that the format holds. *)
Lemma shr_fexp_bound m e mb eb :
  (0 <= m)%Z -> (e <= eb)%Z -> (m <= Zpos mb * 2 ^ (eb - e))%Z ->
  (Zpos (digits2_pos mb) <= 53)%Z -> (-1074 <= eb)%Z ->
  exists rec e',
    shr_fexp prec emax m e loc_Exact = (rec, e') /\
    (e' <= eb)%Z /\ (0 <= shr_m rec)%Z /\
    (shr_m rec <= round_nearest_even (shr_m rec) (loc_of_shr_record rec)
     <= Zpos mb * 2 ^ (eb - e'))%Z.
Proof.
  intros Hm He Hle Hdb Heb.
  assert (Hdig : (Zdigits2 m <= Zpos (digits2_pos mb) + (eb - e))%Z).
  { destruct m as [|p|p]; [simpl; lia| |lia]. simpl.
    apply digits2_below; [lia|].
    eapply Z.le_lt_trans; [exact Hle|].
    rewrite Z.pow_add_r by lia.
    apply Z.mul_lt_mono_pos_r; [apply Z.pow_pos_nonneg; lia|].
    apply digits2_upper. }
  unfold shr_fexp. rewrite fexp_64.
  set (F := Z.max (Zdigits2 m + e - 53) (-1074)).
  assert (HF : (F <= eb)%Z) by (unfold F; lia).
  change (shr_record_of_loc m loc_Exact) with (Build_shr_record m false false).
  destruct (F - e)%Z as [|p|p] eqn:En.
  - exists (Build_shr_record m false false), e. split; [reflexivity|].
    split; [assumption|]. split; [assumption|]. simpl. lia.
  - simpl shr. eexists _, _. split; [reflexivity|].
    destruct (iter_shr_1 p m false false Hm) as [H1 B1].
    set (rec := SpecFloat.iter_pos shr_1 p (Build_shr_record m false false)) in *.
    assert (Hp2 : (0 < 2 ^ Zpos p)%Z) by (apply Z.pow_pos_nonneg; lia).
    assert (Hsplit : (Zpos mb * 2 ^ (eb - e)
                      = Zpos mb * 2 ^ (eb - (e + Zpos p)) * 2 ^ Zpos p)%Z).
    { rewrite <- Z.mul_assoc, <- Z.pow_add_r by lia. f_equal. f_equal. lia. }
    set (Y := (Zpos mb * 2 ^ (eb - (e + Zpos p)))%Z) in *.
    split; [lia|]. split; [rewrite H1; apply Z.div_pos; lia|].
    destruct (round_nearest_even_bounds (shr_m rec) (loc_of_shr_record rec))
      as [[Rl Ru] Rex].
    split; [assumption|].
    assert (Hfloor : (shr_m rec <= Y)%Z).
    { rewrite H1. apply Z.div_le_upper_bound; lia. }
    assert (Hc : shr_r rec || shr_s rec = true \/ shr_r rec || shr_s rec = false)
      by (destruct (shr_r rec || shr_s rec); auto).
    destruct Hc as [Eloc|Eloc].
    + assert (Hrem : (m mod 2 ^ Zpos p <> 0)%Z).
      { intros Hz. destruct B1 as [_ B1].
        rewrite B1 in Eloc; [discriminate Eloc | split; [reflexivity | assumption]]. }
      assert (Hlt : (shr_m rec < Y)%Z).
      { rewrite H1. apply Z.div_lt_upper_bound; [lia|].
        assert (m <> Y * 2 ^ Zpos p)%Z; [|lia].
        intros ->. apply Hrem. apply Z.mod_mul. lia. }
      lia.
    + rewrite Rex; [assumption|].
      destruct rec as [m1 [] []]; simpl in Eloc; try discriminate. reflexivity.
  - exists (Build_shr_record m false false), e. split; [reflexivity|].
    split; [assumption|]. split; [assumption|]. simpl. lia.
Qed.

(** Rounding a product that does not pass a positive number of the
    format gives a number that does not pass it. *)
Lemma binary_round_aux_le M E mb eb :
  (E <= eb)%Z -> (Zpos M <= Zpos mb * 2 ^ (eb - E))%Z ->
  (Zpos (digits2_pos mb) <= 53)%Z -> (-1074 <= eb <= 971)%Z ->
  binary_round_aux prec emax false (Zpos M) E loc_Exact = S754_zero false \/
  exists m3 e3,
    binary_round_aux prec emax false (Zpos M) E loc_Exact = S754_finite false m3 e3 /\
    ((e3 < eb)%Z \/ (e3 = eb /\ (m3 <= mb)%positive)).
Proof.
  intros HE Hle Hdb Heb. unfold binary_round_aux.
  destruct (shr_fexp_bound (Zpos M) E mb eb ltac:(lia) HE Hle Hdb ltac:(lia))
    as (rec1 & e1 & -> & He1 & Hm1 & Hr1l & Hr1u).
  set (m2 := round_nearest_even (shr_m rec1) (loc_of_shr_record rec1)) in *.
  destruct (shr_fexp_bound m2 e1 mb eb ltac:(lia) He1 Hr1u Hdb ltac:(lia))
    as (rec2 & e2 & -> & He2 & Hm2 & Hr2l & Hr2u).
  destruct (shr_m rec2) as [|m3|m3] eqn:E3; [by left| |lia].
  right. exists m3, e2.
  assert (Hb : (e2 <=? emax - prec)%Z = true).
  { apply Z.leb_le. change (emax - prec)%Z with 971%Z. lia. }
  split.
  - match goal with |- (if ?c then _ else _) = _ => replace c with true end.
    reflexivity.
  - destruct (Z.eq_dec e2 eb) as [->|Hne]; [right|left; lia].
    split; [reflexivity|]. rewrite Z.sub_diag in Hr2u. simpl in Hr2u. lia.
Qed.

Lemma valid_finite m e :
  valid_binary (S754_finite false m e) = true ->
  (Zpos (digits2_pos m) <= 53)%Z /\ (-1074 <= e <= 971)%Z.
Proof.
  unfold SpecFloat.valid_binary, bounded, canonical_mantissa.
  rewrite fexp_64. intros Hv. apply andb_true_iff in Hv as [Hc Hb].
  apply Z.eqb_eq in Hc. apply Z.leb_le in Hb.
  change (emax - prec)%Z with 971%Z in Hb. lia.
Qed.

(** A product with a factor in (0, 1] does not pass the other factor,
    when that one is not negative; and it is not negative. *)
Lemma SFmul_shrinks (d e : spec_float) :
  valid_binary d = true -> valid_binary e = true ->
  SFltb (S754_zero false) d = true ->
  SFleb d (S754_finite false 4503599627370496 (-52)) = true ->
  SFleb (S754_zero false) e = true ->
  SFleb (SF64mul d e) e = true /\ SFleb (S754_zero false) (SF64mul d e) = true.
Proof.
  intros Vd Ve Hd0 Hd1 He0.
  destruct d as [sd|sd| |sd md ed]; try discriminate Hd0.
  - destruct sd; discriminate.
  - destruct sd; [discriminate|].
    destruct (valid_finite _ _ Vd) as [Hdd Hed].
    assert (Hmd : (Zpos md <= 2 ^ (- ed))%Z /\ (ed <= -52)%Z).
    { pose proof (digits2_upper md) as Hu.
      assert (Hp : (2 ^ Zpos (digits2_pos md) <= 2 ^ 53)%Z)
        by (apply Z.pow_le_mono_r; lia).
      unfold SFleb, SFcompare in Hd1.
      destruct (Z.compare_spec ed (-52)) as [->|Hlt|Hgt].
      - split; [|lia]. pose proof (Pos.compare_spec md 4503599627370496) as C.
        unfold Pos.compare in C.
        change (2 ^ (- (-52)))%Z with (Zpos 4503599627370496).
        apply Pos2Z.pos_le_pos.
        destruct C as [->|Hlt|Hgt]; [apply Pos.le_refl | by apply Pos.lt_le_incl |].
        discriminate Hd1.
      - assert (2 ^ 53 <= 2 ^ (- ed))%Z by (apply Z.pow_le_mono_r; lia). lia.
      - discriminate Hd1. }
    destruct Hmd as [Hmd Hed52].
    destruct e as [se|se| |se me ee]; try discriminate He0.
    + destruct se; split; reflexivity.
    + destruct se; [discriminate|]. split; reflexivity.
    + destruct se; [discriminate|].
      destruct (valid_finite _ _ Ve) as [Hde Hee].
      unfold SF64mul, SFmul. simpl xorb.
      destruct (binary_round_aux_le (md * me) (ed + ee) me ee) as [->|(m3 & e3 & -> & Hlex)].
      * lia.
      * replace (ee - (ed + ee))%Z with (- ed)%Z by lia.
        rewrite Pos2Z.inj_mul. nia.
      * assumption.
      * assumption.
      * split; reflexivity.
      * split; [|reflexivity]. unfold SFleb, SFcompare.
        destruct Hlex as [Hlt|[-> Hle]].
        -- apply Z.compare_lt_iff in Hlt. by rewrite Hlt.
        -- rewrite Z.compare_refl.
           pose proof (Pos.compare_spec m3 me) as C. unfold Pos.compare in C.
           destruct C; try reflexivity. lia.
Qed.

Lemma float_mul_shrinks (d e : float) :
  (0 <? d)%float = true -> (d <=? 1)%float = true -> (0 <=? e)%float = true ->
  (d * e <=? e)%float = true /\ (0 <=? d * e)%float = true.
Proof.
  rewrite FloatAxioms.ltb_spec, !FloatAxioms.leb_spec, FloatAxioms.mul_spec.
  change (Prim2SF 0) with (S754_zero false).
  change (Prim2SF 1) with (S754_finite false 4503599627370496 (-52)).
  intros Hd0 Hd1 He0.
  apply SFmul_shrinks; try assumption; apply Prim2SF_valid.
Qed.

Lemma float_leb_not_nan (u v : float) :
  (u <=? v)%float = true -> PrimFloat.is_nan u = false /\ PrimFloat.is_nan v = false.
Proof.
  rewrite FloatAxioms.leb_spec. intros H.
  split; apply is_nan_false; intros E; rewrite E in H;
    [|destruct (Prim2SF u)]; discriminate H.
Qed.

Lemma float_ltb_leb (u v : float) :
  (u <? v)%float = true -> (u <=? v)%float = true.
Proof. rewrite FloatAxioms.ltb_spec, FloatAxioms.leb_spec. apply SFltb_leb. Qed.

Lemma float_ltb_false (u v : float) :
  PrimFloat.is_nan u = false -> PrimFloat.is_nan v = false ->
  (u <? v)%float = false -> (v <=? u)%float = true.
Proof.
  rewrite FloatAxioms.ltb_spec, FloatAxioms.leb_spec. intros Hu Hv.
  apply SFltb_false_leb; by apply is_nan_false.
Qed.

(** ** Sampling *)

Section Sampling.
Context {R : Type} {SR : Scalar R} {NN : Approximator R}.

Lemma random_choices_spec n size g idx g' :
  random_choices n size g = Ok (idx, g') ->
  length idx = size /\ forall i, i ∈ idx -> i < n.
Proof.
  revert g idx g'. induction size as [|size IH]; simpl; intros g idx g' Hr.
  - inv_Ok Hr. split; [reflexivity|]. intros i Hi. by apply elem_of_nil in Hi.
  - case_decide as Hn; [discriminate|].
    unfold next_word in Hr. bind_inv Hr. destruct x as [rest g2].
    inv_Ok Hr. destruct (IH _ _ _ Hm) as [Hlen Hlt].
    split; [simpl; by rewrite Hlen|].
    intros i Hi. apply elem_of_cons in Hi as [->|Hi]; [|auto].
    set (w := entropy g (drawn g)).
    assert (Hw : (w mod N.of_nat n < N.of_nat n)%N) by (apply N.mod_lt; lia).
    revert Hw. generalize (w mod N.of_nat n)%N. intros r Hw. lia.
Qed.

Lemma random_choices_total n size g :
  0 < n -> exists idx g', random_choices n size g = Ok (idx, g').
Proof.
  intros Hn. revert g. induction size as [|size IH]; simpl; intros g; [eauto|].
  case_decide; [lia|]. unfold next_word.
  destruct (IH {| entropy := entropy g; drawn := S (drawn g) |}) as (rest & g2 & ->).
  simpl. eauto.
Qed.

Lemma buffer_end_ptr_le (self : DDQNAgent R) :
  buffer_end_ptr self <= memory_buffer_size self.
Proof. unfold buffer_end_ptr. destruct (buffer_full self); simpl; lia. Qed.

(** What [train] reads from the buffer. *)
Lemma sample_batch_spec (self : DDQNAgent R) n g b g' :
  sample_batch self n g = Ok (b, g') ->
  random_choices (buffer_end_ptr self) n g = Ok (batch_indices b, g') /\
  forall k i, batch_indices b !! k = Some i ->
    exists cs r a d ns,
      memory_buffer_current_state self !! i = Some cs /\
      memory_buffer_reward self !! i = Some r /\
      memory_buffer_action self !! i = Some a /\
      memory_buffer_done self !! i = Some d /\
      memory_buffer_next_state self !! i = Some ns /\
      current_states b !! k = Some cs /\
      rewards b !! k = Some r /\
      actions b !! k = Some (sc_to_int a) /\
      done b !! k = Some d /\
      next_states b !! k = Some ns.
Proof.
  unfold sample_batch. intros Hs.
  bind_inv Hs. destruct x as [idx g1].
  bind_inv Hs. bind_inv Hs. bind_inv Hs. bind_inv Hs. bind_inv Hs.
  inv_Ok Hs. simpl. split; [assumption|].
  intros k i Hk.
  destruct (np_take_lookup _ _ _ _ _ Hm0 Hk) as (cs & ? & ?).
  destruct (np_take_lookup _ _ _ _ _ Hm1 Hk) as (r & ? & ?).
  destruct (np_take_lookup _ _ _ _ _ Hm2 Hk) as (a & ? & ?).
  destruct (np_take_lookup _ _ _ _ _ Hm3 Hk) as (d & ? & ?).
  destruct (np_take_lookup _ _ _ _ _ Hm4 Hk) as (ns & ? & ?).
  exists cs, r, a, d, ns. rewrite list_lookup_fmap.
  repeat split; try assumption.
  by match goal with Hx : _ !! k = Some a |- _ => rewrite Hx end.
Qed.

Lemma sample_batch_lengths (self : DDQNAgent R) n g b g' :
  sample_batch self n g = Ok (b, g') ->
  length (batch_indices b) = n /\
  length (current_states b) = n /\ length (rewards b) = n /\
  length (actions b) = n /\ length (done b) = n /\ length (next_states b) = n.
Proof.
  unfold sample_batch. intros Hs.
  bind_inv Hs. destruct x as [idx g1].
  bind_inv Hs. bind_inv Hs. bind_inv Hs. bind_inv Hs. bind_inv Hs.
  inv_Ok Hs. simpl.
  apply random_choices_spec in Hm as [Hlen _].
  unfold np_take in *.
  repeat match goal with
         | Ht : traverse _ _ = Ok _ |- _ => apply traverse_length in Ht
         end.
  rewrite length_map. repeat split; congruence.
Qed.

(** Sampling succeeds as soon as the valid range is not empty. *)
Lemma sample_batch_total (self : DDQNAgent R) n g :
  arrays_sized self -> 0 < buffer_end_ptr self ->
  exists b g', sample_batch self n g = Ok (b, g').
Proof.
  intros (L1 & L2 & L3 & L4 & L5) Hpos.
  destruct (random_choices_total (buffer_end_ptr self) n g Hpos) as (idx & g' & Hr).
  pose proof (random_choices_spec _ _ _ _ _ Hr) as [_ Hlt].
  pose proof (buffer_end_ptr_le self) as Hle.
  unfold sample_batch. rewrite Hr. simpl.
  destruct (np_take_total (memory_buffer_current_state self) idx) as [cs ->];
    [intros i Hi; specialize (Hlt i Hi); lia|].
  destruct (np_take_total (memory_buffer_reward self) idx) as [rs ->];
    [intros i Hi; specialize (Hlt i Hi); lia|].
  destruct (np_take_total (memory_buffer_action self) idx) as [acts ->];
    [intros i Hi; specialize (Hlt i Hi); lia|].
  destruct (np_take_total (memory_buffer_done self) idx) as [ds ->];
    [intros i Hi; specialize (Hlt i Hi); lia|].
  destruct (np_take_total (memory_buffer_next_state self) idx) as [ns ->];
    [intros i Hi; specialize (Hlt i Hi); lia|].
  simpl. eauto.
Qed.

(** The latest transition stored in a slot of the valid range. *)
Lemma valid_slot_written C (ts : list (Transition R)) (self : DDQNAgent R) i :
  0 < C -> after_stores C ts self -> i < buffer_end_ptr self ->
  exists j t, ts !! j = Some t /\ length ts <= j + C /\ j mod C = i /\
              slot_holds self i t.
Proof.
  intros HC Hafter Hi.
  rewrite (buffer_end_ptr_after C ts self HC Hafter) in Hi.
  destruct Hafter as (_ & _ & _ & _ & Hslots).
  set (n := length ts) in *.
  set (q := (n - 1 - i) / C).
  assert (Hdm : n - 1 - i = C * q + (n - 1 - i) mod C) by apply Nat.div_mod_eq.
  assert (Hr : (n - 1 - i) mod C < C) by (apply Nat.mod_upper_bound; lia).
  set (j := i + C * q).
  assert (Hj : j < n) by (unfold j; lia).
  destruct (lookup_lt_is_Some_2 ts j Hj) as [t Ht].
  assert (Hmod : j mod C = i).
  { symmetry. apply Nat.mod_unique with (q := q); unfold j; lia. }
  exists j, t. split; [assumption|]. split; [unfold j; lia|]. split; [assumption|].
  rewrite <- Hmod. apply Hslots; [assumption | unfold j; lia].
Qed.
End Sampling.

(** ** The steps of [train] *)

Section TrainSteps.
Context {R : Type} {SR : Scalar R} {NN : Approximator R}.

Lemma train_steps (self self' : DDQNAgent R) n g g' :
  train self n g = Ok (self', g') ->
  exists b y m,
    sample_batch self n g = Ok (b, g') /\
    regression_targets self b = Ok y /\
    model_fit (q_model self) (current_states b) y n = Ok m /\
    self' = set_q_model self m.
Proof.
  unfold train. intros Ht.
  bind_inv Ht. destruct x as [b g1]. bind_inv Ht. bind_inv Ht. inv_Ok Ht.
  eauto 10.
Qed.
End TrainSteps.

Section FloatStorage.
Context {NN : Approximator float}.

(** C10: actions and done flags written by [store_episode] into the
    binary64 arrays come back unchanged when [train] samples their slot,
    for every action below [n_actions <= 2^53]: the cast recovers the
    action, and the flag reads as exactly 1.0 or 0.0. *)
Theorem stored_action_and_done_roundtrip C (self : DDQNAgent float)
    (ts : list (Transition float)) :
  0 < C -> empty_buffer C self ->
  (Z.of_nat (n_actions self) <= 2 ^ 53)%Z ->
  (forall t, t ∈ ts -> (0 <= t_action t < Z.of_nat (n_actions self))%Z) ->
  exists self',
    store_all self ts = Ok self' /\
    forall n g out, train self' n g = Ok out ->
      exists b, sample_batch self' n g = Ok (b, out.2) /\
        forall k j t,
          ts !! j = Some t -> length ts <= j + C ->
          batch_indices b !! k = Some (j mod C) ->
          actions b !! k = Some (t_action t) /\
          done b !! k = Some (if t_done t then 1%float else 0%float).
Proof.
  intros HC Hempty Hn Hacts.
  destruct (store_all_total C ts self HC Hempty) as [self' Hs].
  exists self'. split; [assumption|].
  pose proof (store_all_after C ts self self' HC Hempty Hs) as (_ & _ & _ & _ & Hslots).
  intros n g [self'' g'] Ht.
  destruct (train_steps _ _ _ _ _ Ht) as (b & y & m & Hb & _).
  exists b. split; [exact Hb|].
  intros k j t Hj Hwin Hk.
  destruct (sample_batch_spec _ _ _ _ _ Hb) as [_ Hrows].
  destruct (Hrows k _ Hk) as (cs & r & a & d & ns & _ & _ & Ha & Hd & _ & _ & _ & Hact & Hdone & _).
  destruct (Hslots j t Hj Hwin) as (_ & _ & Ha' & _ & Hd').
  rewrite Ha' in Ha. inv_Ok Ha. rewrite Hd' in Hd. inv_Ok Hd.
  split.
  - rewrite Hact. f_equal. simpl. apply float_int_roundtrip.
    assert (Hin : t ∈ ts) by (apply list_elem_of_lookup; eauto).
    specialize (Hacts t Hin). lia.
  - rewrite Hdone. f_equal. by destruct (t_done t).
Qed.
End FloatStorage.

Lemma stored_action_and_done_roundtrip_witness :
  exists self',
    store_all float_agent float_transitions = Ok self' /\
    forall n g out, train self' n g = Ok out ->
      exists b, sample_batch self' n g = Ok (b, out.2) /\
        forall k j t,
          float_transitions !! j = Some t -> length float_transitions <= j + 2 ->
          batch_indices b !! k = Some (j mod 2) ->
          actions b !! k = Some (t_action t) /\
          done b !! k = Some (if t_done t then 1%float else 0%float).
Proof.
  apply (stored_action_and_done_roundtrip 2 float_agent float_transitions).
  - lia.
  - apply DDQNAgent_sized_empty.
  - simpl. lia.
  - intros t Ht. unfold float_transitions in Ht.
    repeat (apply elem_of_cons in Ht as [->|Ht]; [simpl; lia|]).
    by apply elem_of_nil in Ht.
Defined.

(** ** The regression targets *)

Section Targets.
Context {R : Type} {SR : Scalar R} {NN : Approximator R}.

Lemma bellman_rows_lookup (gm : R) rs ds ms k r d m :
  rs !! k = Some r -> ds !! k = Some d -> ms !! k = Some m ->
  bellman_rows gm rs ds ms !! k = Some (bellman_target gm r d m).
Proof.
  revert ds ms k. induction rs as [|r0 rs IH]; intros ds ms k Hr Hd Hmx;
    [discriminate|].
  destruct ds as [|d0 ds]; [discriminate|].
  destruct ms as [|m0 ms]; [discriminate|].
  destruct k as [|k]; simpl in *.
  - congruence.
  - eauto.
Qed.

(** Line 87, row by row. *)
Lemma bellman_targets_lookup (self : DDQNAgent R) (b : Batch R) targets :
  bellman_targets self b = Ok targets ->
  forall k r d s',
    rewards b !! k = Some r -> done b !! k = Some d ->
    next_states b !! k = Some s' ->
    exists m,
      np_max (forward (weights (q_target_model self)) s') = Ok m /\
      targets !! k = Some (bellman_target (gamma self) r d m).
Proof.
  unfold bellman_targets. intros Hb k r d s' Hr Hd Hs.
  bind_inv Hb. simpl in Hm. inv_Ok Hm. bind_inv Hb. inv_Ok Hb.
  assert (Hq : map (forward (weights (q_target_model self))) (next_states b) !! k
               = Some (forward (weights (q_target_model self)) s')).
  { rewrite list_lookup_fmap, Hs. reflexivity. }
  destruct (traverse_lookup _ _ _ _ _ Hm Hq) as (m & Hmax & Hmk).
  exists m. split; [assumption|]. by apply bellman_rows_lookup.
Qed.

(** Line 88: row [k0 + k] gets the [k]-th value in the column of the
    [k]-th action; nothing else changes. *)
Lemma np_scatter_spec (q : list (list R)) k0 acts vals q' :
  np_scatter q k0 acts vals = Ok q' ->
  forall k a v, acts !! k = Some a -> vals !! k = Some v ->
    exists row j,
      q !! (k0 + k) = Some row /\ norm_index a (length row) = Ok j /\
      q' !! (k0 + k) = Some (<[j := v]> row).
Proof.
  assert (Hbelow : forall acts vals (q : list (list R)) k0 q',
             np_scatter q k0 acts vals = Ok q' ->
             forall i, i < k0 -> q' !! i = q !! i).
  { clear. intros acts. induction acts as [|a acts IH]; intros vals q k0 q' Hs i Hi.
    - simpl in Hs. inv_Ok Hs. reflexivity.
    - destruct vals as [|v vals]; simpl in Hs; [inv_Ok Hs; reflexivity|].
      bind_inv Hs. bind_inv Hs.
      rewrite (IH _ _ _ _ Hs i) by lia.
      apply list_lookup_insert_ne. lia. }
  revert q k0 vals q'. induction acts as [|a0 acts IH]; intros q k0 vals q' Hs k a v Ha Hv;
    [discriminate|].
  destruct vals as [|v0 vals]; [discriminate|].
  simpl in Hs. bind_inv Hs. bind_inv Hs.
  apply np_get_Ok in Hm.
  destruct k as [|k]; simpl in Ha, Hv.
  - inv_Ok Ha. inv_Ok Hv. rewrite Nat.add_0_r.
    exists x, x0. split; [assumption|]. split; [assumption|].
    rewrite (Hbelow _ _ _ _ _ Hs k0) by lia.
    apply list_lookup_insert_eq. by eapply lookup_lt_Some.
  - destruct (IH _ _ _ _ Hs k a v Ha Hv) as (row & j & Hrow & Hj & Hq').
    replace (k0 + S k) with (S k0 + k) by lia.
    exists row, j. split; [|split; assumption].
    rewrite list_lookup_insert_ne in Hrow by lia. assumption.
Qed.

(** Lines 84-88, row by row. *)
Lemma regression_targets_lookup (self : DDQNAgent R) (b : Batch R) y :
  regression_targets self b = Ok y ->
  exists targets,
    bellman_targets self b = Ok targets /\
    forall k s a v,
      current_states b !! k = Some s -> actions b !! k = Some a ->
      targets !! k = Some v ->
      exists j,
        norm_index a (length (forward (weights (q_model self)) s)) = Ok j /\
        y !! k = Some (<[j := v]> (forward (weights (q_model self)) s)).
Proof.
  unfold regression_targets. intros Hy.
  bind_inv Hy. simpl in Hm. inv_Ok Hm. bind_inv Hy.
  exists x. split; [assumption|].
  intros k s a v Hs Ha Hv.
  destruct (np_scatter_spec _ _ _ _ _ Hy k a v Ha Hv) as (row & j & Hrow & Hj & Hyk).
  simpl in Hrow, Hyk. rewrite list_lookup_fmap, Hs in Hrow. inv_Ok Hrow.
  eauto.
Qed.



End Targets.

(** Close a goal from [E : r = Raise e] when [r] evaluates to [Ok _]. *)
Ltac raise_by_compute E :=
  exfalso;
  match type of E with
  | ?r = Raise _ =>
      let Hok := fresh "Hok" in
      assert (Hok : is_ok r = true) by (vm_compute; reflexivity);
      rewrite E in Hok; discriminate Hok
  end.

(** A training step of the tiny agent, with a batch of two, succeeds. *)
Lemma filled_agent_trains :
  is_ok (train filled_agent 2 counting_entropy) = true.
Proof. vm_compute. reflexivity. Qed.

Lemma Ok_of_is_ok {A} (r : result A) e : is_ok r = true -> r <> Raise e.
Proof. intros Hok ->. discriminate Hok. Qed.


(** ** The Bellman targets in binary64 *)

Section Binary64Targets.
Context {NN : Approximator float}.

(** C5, amended: for each sampled transition, the target [train] computes is
    [reward + gamma * (1 - done) * max] in binary64, the maximum being
    [np.max] of the target network's values for the next state (an
    entry of the row, NaN if the row holds a NaN, otherwise at least
    every entry).  Where the stored flag is 1.0 the target equals the
    reward as long as that maximum and [gamma] are finite and the reward
    is a number; with an infinite or NaN maximum the target is NaN. *)
Theorem bellman_target_masks_terminal (self self' : DDQNAgent float) n g g' :
  train self n g = Ok (self', g') ->
  exists b targets,
    sample_batch self n g = Ok (b, g') /\
    bellman_targets self b = Ok targets /\
    forall k i, batch_indices b !! k = Some i ->
      exists r d s' m y,
        memory_buffer_reward self !! i = Some r /\
        memory_buffer_done self !! i = Some d /\
        memory_buffer_next_state self !! i = Some s' /\
        m ∈ forward (weights (q_target_model self)) s' /\
        ((exists v, v ∈ forward (weights (q_target_model self)) s' /\
                    PrimFloat.is_nan v = true) ->
         PrimFloat.is_nan m = true) /\
        ((forall v, v ∈ forward (weights (q_target_model self)) s' ->
                    PrimFloat.is_nan v = false) ->
         forall v, v ∈ forward (weights (q_target_model self)) s' ->
                   (v <=? m)%float = true) /\
        targets !! k = Some y /\
        y = (r + gamma self * (1 - d) * m)%float /\
        (d = 1%float ->
         PrimFloat.is_finite (gamma self) = true ->
         PrimFloat.is_finite m = true ->
         PrimFloat.is_nan r = false ->
         (y =? r)%float = true) /\
        (d = 1%float -> PrimFloat.is_finite m = false ->
         PrimFloat.is_nan y = true).
Proof.
  intros Ht. destruct (train_steps _ _ _ _ _ Ht) as (b & y & m & Hb & Hy & _).
  destruct (regression_targets_lookup _ _ _ Hy) as (targets & Htargets & _).
  exists b, targets. repeat (split; [assumption|]).
  intros k i Hk.
  destruct (sample_batch_spec _ _ _ _ _ Hb) as [_ Hsample].
  destruct (Hsample k i Hk)
    as (cs & r & a & d & ns & _ & Hr & _ & Hd & Hns & _ & Hbr & _ & Hbd & Hbn).
  destruct (bellman_targets_lookup _ _ _ Htargets k r d ns Hbr Hbd Hbn)
    as (mx & Hmx & Hv).
  destruct (np_max_float _ _ Hmx) as (Hin & Hnan & Hub).
  exists r, d, ns, mx, (bellman_target (gamma self) r d mx).
  repeat (split; [assumption|]).
  split; [reflexivity|]. split.
  - intros -> Hg Hm Hrn. by apply bellman_target_terminal_finite.
  - intros -> Hm. by apply bellman_target_terminal_overflow.
Qed.
End Binary64Targets.

Lemma float_filled_agent_trains :
  is_ok (train float_filled_agent 2 counting_entropy) = true.
Proof. vm_compute. reflexivity. Qed.

Lemma bellman_target_masks_terminal_witness :
  exists self' g' b targets,
    train float_filled_agent 2 counting_entropy = Ok (self', g') /\
    sample_batch float_filled_agent 2 counting_entropy = Ok (b, g') /\
    bellman_targets float_filled_agent b = Ok targets /\
    forall k i, batch_indices b !! k = Some i -> exists y, targets !! k = Some y.
Proof.
  destruct (train float_filled_agent 2 counting_entropy) as [[self' g']|e] eqn:E.
  - destruct (bellman_target_masks_terminal _ _ _ _ _ E)
      as (b & targets & Hb & Htargets & Hrows).
    exists self', g', b, targets. repeat (split; [first [reflexivity | assumption]|]).
    intros k i Hk.
    destruct (Hrows k i Hk) as (_ & _ & _ & _ & y & _ & _ & _ & _ & _ & _ & Hy & _).
    eauto.
  - destruct (Ok_of_is_ok _ e float_filled_agent_trains E).
Defined.

(** With a target network that answers [2; 0]: the terminal transition
    sampled in row 1 (flag 1.0) has its reward as target, the other row
    has not. *)
Lemma bellman_target_terminal_row :
  (let* (b, _) := sample_batch (biased_agent 2) 2 counting_entropy in
   let* targets := bellman_targets (biased_agent 2) b in
   Ok (batch_indices b, rewards b, done b,
       map (fun p => (p.1 =? p.2)%float) (zip targets (rewards b))))
  = Ok ([0; 1], [1%float; 1%float], [0%float; 1%float], [false; true]).
Proof. vm_compute. reflexivity. Qed.

(** C5 as stated fails: with a target network whose first output is
    infinite, the terminal transition sampled in row 1 (flag 1.0, reward
    1.0) gets the target NaN, which is not its reward. *)
Lemma bellman_target_nan_on_overflow :
  (let* (b, _) := sample_batch (biased_agent infinity) 2 counting_entropy in
   let* targets := bellman_targets (biased_agent infinity) b in
   Ok (batch_indices b, rewards b, done b,
       map (@forward float dense_network
              (weights (q_target_model (biased_agent infinity))))
           (next_states b),
       map PrimFloat.is_nan targets,
       map (fun p => (p.1 =? p.2)%float) (zip targets (rewards b))))
  = Ok ([0; 1], [1%float; 1%float], [0%float; 1%float],
        [[infinity; 0%float]; [infinity; 0%float]],
        [false; true], [false; false]).
Proof. vm_compute. reflexivity. Qed.

(** ** What each operation changes *)

Section Frames.
Context {R : Type} {SR : Scalar R} {NN : Approximator R}.

Lemma store_episode_frame (self self' : DDQNAgent R) s a r s' d :
  store_episode self s a r s' d = Ok self' ->
  q_model self' = q_model self /\ q_target_model self' = q_target_model self /\
  epsilon self' = epsilon self.
Proof.
  unfold store_episode. intros Hs. repeat (bind_inv Hs). inv_Ok Hs. auto.
Qed.

Lemma train_frame (self self' : DDQNAgent R) n g g' :
  train self n g = Ok (self', g') ->
  q_target_model self' = q_target_model self /\
  memory_buffer_current_state self' = memory_buffer_current_state self /\
  memory_buffer_next_state self' = memory_buffer_next_state self /\
  memory_buffer_action self' = memory_buffer_action self /\
  memory_buffer_reward self' = memory_buffer_reward self /\
  memory_buffer_done self' = memory_buffer_done self /\
  memory_buffer_size self' = memory_buffer_size self /\
  memory_buffer_pointer self' = memory_buffer_pointer self /\
  buffer_full self' = buffer_full self /\
  epsilon self' = epsilon self.
Proof.
  intros Ht. destruct (train_steps _ _ _ _ _ Ht) as (b & y & m & _ & _ & _ & ->).
  simpl. auto 12.
Qed.

Lemma set_weights_Ok (m m' : Model R) ws :
  set_weights m ws = Ok m' ->
  weights m' = ws /\ optimizer m' = optimizer m /\ shape ws = shape (weights m).
Proof.
  unfold set_weights. case_decide; [|discriminate]. intros Hs. inv_Ok Hs. auto.
Qed.

(** [load_model_weights] puts the content of the file in both networks. *)
Lemma load_model_weights_spec (self self' : DDQNAgent R) disk :
  load_model_weights self disk = Ok self' ->
  exists ws, head disk = Some ws /\
    weights (q_model self') = ws /\ weights (q_target_model self') = ws.
Proof.
  unfold load_model_weights, load_weights. intros Hl.
  destruct disk as [|ws disk]; [discriminate|].
  bind_inv Hl. bind_inv Hl. inv_Ok Hl.
  apply set_weights_Ok in Hm as (Hw & _). apply set_weights_Ok in Hm0 as (Hw0 & _).
  exists ws. simpl. auto.
Qed.

(** C2, amended: [store_episode], [update_epsilon] and [train] leave the
    target network as it is ([compute_action] and [save_model_weights]
    return no agent at all); [load_model_weights] does replace the
    target parameters, by the content of the file, as it replaces the
    online ones; and [train] changes nothing of the agent but the online
    network: the five arrays, the pointer, the flag and epsilon stay. *)
Theorem target_network_frame (self : DDQNAgent R) :
  (forall s a r s' d self',
      store_episode self s a r s' d = Ok self' ->
      q_target_model self' = q_target_model self) /\
  q_target_model (update_epsilon self) = q_target_model self /\
  (forall n g self' g',
      train self n g = Ok (self', g') ->
      q_target_model self' = q_target_model self /\
      memory_buffer_current_state self' = memory_buffer_current_state self /\
      memory_buffer_next_state self' = memory_buffer_next_state self /\
      memory_buffer_action self' = memory_buffer_action self /\
      memory_buffer_reward self' = memory_buffer_reward self /\
      memory_buffer_done self' = memory_buffer_done self /\
      memory_buffer_size self' = memory_buffer_size self /\
      memory_buffer_pointer self' = memory_buffer_pointer self /\
      buffer_full self' = buffer_full self /\
      epsilon self' = epsilon self) /\
  (forall disk self',
      load_model_weights self disk = Ok self' ->
      exists ws, head disk = Some ws /\
        weights (q_model self') = ws /\ weights (q_target_model self') = ws).
Proof.
  split; [|split; [|split]].
  - intros s a r s' d self' Hs. by apply store_episode_frame in Hs as (_ & ? & _).
  - reflexivity.
  - intros n g self' g'. apply train_frame.
  - intros disk self'. apply load_model_weights_spec.
Qed.
End Frames.

Lemma target_network_frame_witness :
  exists self' g',
    train filled_agent 2 counting_entropy = Ok (self', g') /\
    q_target_model self' = q_target_model filled_agent /\
    epsilon self' = epsilon filled_agent.
Proof.
  destruct (train filled_agent 2 counting_entropy) as [[self' g']|e] eqn:E.
  - destruct (target_network_frame filled_agent) as (_ & _ & Htrain & _).
    destruct (Htrain _ _ _ _ E) as (Ht & _ & _ & _ & _ & _ & _ & _ & _ & He).
    exists self', g'. auto.
  - destruct (Ok_of_is_ok _ e filled_agent_trains E).
Defined.

(** C2 as stated fails for [load_model_weights]: the target network of
    the tiny agent is not what it was once the file has been loaded. *)
Lemma load_model_weights_moves_target :
  exists self',
    load_model_weights tiny_agent [favour_action_1] = Ok self' /\
    weights (q_target_model self') <> weights (q_target_model tiny_agent).
Proof.
  destruct (load_model_weights tiny_agent [favour_action_1]) as [self'|e] eqn:E.
  - exists self'. split; [reflexivity|].
    destruct (load_model_weights_spec _ _ _ E) as (ws & Hws & _ & Ht).
    simpl in Hws. inv_Ok Hws. rewrite Ht. intros Heq.
    assert (Hp : param favour_action_1 5 1
                 = param (weights (q_target_model tiny_agent)) 5 1)
      by (rewrite <- Heq; reflexivity).
    vm_compute in Hp. discriminate Hp.
  - raise_by_compute E.
Qed.

(** ** The soft update *)

Section SoftUpdate.
Context {R : Type} {SR : Scalar R} {NN : Approximator R}.





End SoftUpdate.

Section ExactUpdates.
Context {NN : Approximator Q}.
Local Open Scope Q_scope.



Lemma py_max_Q (a b : Q) : py_max a b == Qmax a b.
Proof.
  unfold py_max. simpl. destruct (Qle_bool b a) eqn:E; simpl.
  - apply Qle_bool_iff in E. symmetry. by apply Q.max_l.
  - assert (Hlt : a < b).
    { apply Qnot_le_lt. intros Hle. apply Qle_bool_iff in Hle. congruence. }
    symmetry. apply Q.max_r. by apply Qlt_le_weak.
Qed.
End ExactUpdates.




(** ** The exploration rate *)

Section DecayIterates.
Context {R : Type} {SR : Scalar R} {NN : Approximator R}.

Lemma decay_times_S (self : DDQNAgent R) k :
  decay_times (S k) self = update_epsilon (decay_times k self).
Proof.
  revert self. induction k as [|k IH]; intros self; [reflexivity|].
  change (decay_times (S (S k)) self) with (decay_times (S k) (update_epsilon self)).
  by rewrite IH.
Qed.

Lemma decay_times_keeps (self : DDQNAgent R) k :
  epsilon_decay (decay_times k self) = epsilon_decay self /\
  min_epsilon (decay_times k self) = min_epsilon self.
Proof.
  induction k as [|k IH]; [auto|]. rewrite decay_times_S. simpl. exact IH.
Qed.
End DecayIterates.

Section Decay64.
Context {NN : Approximator float}.

(** One call of [update_epsilon] in binary64. *)
Lemma update_epsilon_float (self : DDQNAgent float) :
  (min_epsilon self <=? epsilon self)%float = true ->
  (0 <? epsilon_decay self)%float = true ->
  (epsilon_decay self <=? 1)%float = true ->
  (0 <=? epsilon self)%float = true ->
  let e' := epsilon (update_epsilon self) in
  e' = (if (epsilon_decay self * epsilon self <? min_epsilon self)%float
        then min_epsilon self else (epsilon_decay self * epsilon self)%float) /\
  (e' <=? epsilon self)%float = true /\
  (min_epsilon self <=? e')%float = true /\
  (0 <=? e')%float = true.
Proof.
  intros Hmin Hd0 Hd1 H0. cbv zeta.
  destruct (float_mul_shrinks _ _ Hd0 Hd1 H0) as [Hle Hnn].
  destruct (float_leb_not_nan _ _ Hmin) as [Nmin _].
  destruct (float_leb_not_nan _ _ Hle) as [Nprod _].
  change (epsilon (update_epsilon self))
    with (if (epsilon_decay self * epsilon self <? min_epsilon self)%float
          then min_epsilon self else (epsilon_decay self * epsilon self)%float).
  split; [reflexivity|].
  assert (Hc : (epsilon_decay self * epsilon self <? min_epsilon self)%float = true \/
               (epsilon_decay self * epsilon self <? min_epsilon self)%float = false)
    by (destruct (epsilon_decay self * epsilon self <? min_epsilon self)%float; auto).
  destruct Hc as [Hlt|Hge]; [rewrite Hlt | rewrite Hge].
  - split; [assumption|]. split; [by apply float_leb_refl|].
    apply (float_leb_trans _ _ _ Hnn). by apply float_ltb_leb.
  - split; [assumption|]. split; [by apply float_ltb_false | assumption].
Qed.

(** C8, amended: in binary64, from an exploration rate that is not negative and
    not below the floor, with a decay factor in (0, 1], every call of
    [update_epsilon] computes Python's [max(decay * epsilon, floor)];
    the rates never increase and never go below the floor. *)
Theorem epsilon_decay_monotone (self : DDQNAgent float) (k : nat) :
  (min_epsilon self <=? epsilon self)%float = true ->
  (0 <? epsilon_decay self)%float = true ->
  (epsilon_decay self <=? 1)%float = true ->
  (0 <=? epsilon self)%float = true ->
  let e := epsilon (decay_times k self) in
  let e' := epsilon (decay_times (S k) self) in
  e' = (if (epsilon_decay self * e <? min_epsilon self)%float
        then min_epsilon self else (epsilon_decay self * e)%float) /\
  (e' <=? e)%float = true /\
  (min_epsilon self <=? e)%float = true /\
  (min_epsilon self <=? e')%float = true.
Proof.
  intros Hmin Hd0 Hd1 H0. cbv zeta.
  assert (Hinv : (min_epsilon self <=? epsilon (decay_times k self))%float = true /\
                 (0 <=? epsilon (decay_times k self))%float = true).
  { induction k as [|k IH]; [auto|].
    destruct IH as [IHmin IH0]. rewrite decay_times_S.
    destruct (decay_times_keeps self k) as [Kd Km].
    destruct (update_epsilon_float (decay_times k self)) as (_ & _ & Hm & Hz);
      rewrite ?Kd, ?Km; try assumption.
    rewrite Km in Hm. auto. }
  destruct Hinv as [Imin I0]. rewrite decay_times_S.
  destruct (decay_times_keeps self k) as [Kd Km].
  destruct (update_epsilon_float (decay_times k self)) as (Heq & Hle & Hm & _);
    rewrite ?Kd, ?Km; try assumption.
  rewrite Kd, Km in Heq. rewrite Km in Hm. auto.
Qed.
End Decay64.

Lemma epsilon_decay_monotone_witness :
  (epsilon (decay_times 3 float_agent) <=? epsilon (decay_times 2 float_agent))%float
  = true /\
  (min_epsilon float_agent <=? epsilon (decay_times 3 float_agent))%float = true.
Proof.
  destruct (epsilon_decay_monotone float_agent 2) as (_ & Hle & _ & Hmin);
    try (vm_compute; reflexivity).
  split; assumption.
Defined.

(** C8 as stated fails below zero: from [epsilon = -1] with the floor
    [-2] and the decay [1/2], one call raises the rate to [-1/2], in
    exact arithmetic and in binary64 alike. *)
Lemma epsilon_rises_from_negative :
  (let self := with_schedule tiny_agent (-1) (1 # 2) (-2) in
   min_epsilon self <= epsilon self /\ 0 < epsilon_decay self <= 1 /\
   epsilon self < epsilon (update_epsilon self))%Q /\
  (let self := with_schedule float_agent (-1) 0.5 (-2) in
   (min_epsilon self <=? epsilon self) = true /\
   (0 <? epsilon_decay self) = true /\ (epsilon_decay self <=? 1) = true /\
   (epsilon self <? epsilon (update_epsilon self)) = true)%float.
Proof.
  split.
  - cbv zeta. split; [vm_compute; discriminate|].
    split; [split; [vm_compute; reflexivity | vm_compute; discriminate]|].
    vm_compute. reflexivity.
  - cbv zeta. repeat split; vm_compute; reflexivity.
Qed.

(** ** The evaluation loop *)

Section Evaluation.
Context {NN : Approximator Q} {E : Env Q}.
Local Open Scope Q_scope.

(** A uniform draw is below one. *)
Lemma random_uniform_below_one g :
  (random_uniform (R := Q) (sc_of_int 0) (sc_of_int 1) g).1 < 1.
Proof.
  unfold random_uniform, random_sample, next_word. simpl.
  set (w := entropy g (drawn g)).
  assert (Hw : (Z.of_N (w mod 2 ^ 53) < 2 ^ 53)%Z).
  { assert (w mod 2 ^ 53 < 2 ^ 53)%N by (apply N.mod_lt; discriminate). lia. }
  revert Hw. generalize (Z.of_N (w mod 2 ^ 53)). intros z Hz.
  unfold Qlt, Qplus, Qmult, Qminus, Qopp, inject_Z. simpl. lia.
Qed.

(** With an exploration rate of one or more, [compute_action] never
    asks the network. *)
Lemma compute_action_explores (self : DDQNAgent Q) x g :
  1 <= epsilon self ->
  compute_action self x g
  = random_choice (n_actions self)
      (random_uniform (R := Q) (sc_of_int 0) (sc_of_int 1) g).2.
Proof.
  intros He. unfold compute_action.
  pose proof (random_uniform_below_one g) as Hu.
  destruct (random_uniform (sc_of_int 0) (sc_of_int 1) g) as [u g1]. simpl in *.
  destruct (Qle_bool (epsilon self) u) eqn:Hle; simpl; [|reflexivity].
  apply Qle_bool_iff in Hle. exfalso.
  apply (Qlt_irrefl 1). eapply Qle_lt_trans; [|exact Hu].
  eapply Qle_trans; eassumption.
Qed.

(** Two agents that both explore always, over the same actions, run the
    same evaluation episode: the networks play no part in it. *)
Lemma sim_loop_explores fuel (a1 a2 : DDQNAgent Q) state s :
  1 <= epsilon a1 -> 1 <= epsilon a2 -> n_actions a1 = n_actions a2 ->
  sim_loop fuel a1 state s = sim_loop fuel a2 state s.
Proof.
  intros He1 He2 Hn. revert state s. induction fuel as [|fuel IH]; intros state s;
    [reflexivity|].
  simpl. rewrite !compute_action_explores by assumption. rewrite Hn.
  destruct (random_choice _ _) as [[a g1]|e]; simpl; [|reflexivity].
  destruct (env_step (sim_env s) a) as [[[obs r] dn] e']. destruct dn; auto.
Qed.

(** X13: the evaluation episode is the same whatever parameters the
    weights file holds. *)
Lemma run_sim_routine_ignores_file fuel g e ws1 ws2 state_size action_size
    junk init_q init_target :
  shape ws1 = shape ws2 ->
  run_sim_routine fuel g e [ws1] state_size action_size junk init_q init_target
  = run_sim_routine fuel g e [ws2] state_size action_size junk init_q init_target.
Proof.
  intros Hsh. unfold run_sim_routine.
  set (ag := DDQNAgent_init junk init_q init_target state_size action_size).
  assert (Heps : 1 <= epsilon ag) by (unfold Qle; simpl; lia).
  clearbody ag.
  unfold load_model_weights, load_weights, set_weights. rewrite Hsh.
  repeat case_decide; simpl; try reflexivity.
  destruct (env_reset e) as [obs e'].
  apply sim_loop_explores; simpl; auto.
Qed.
End Evaluation.


(** C1 fails on the code.  The agent [run_sim_routine] builds has the
    exploration rate of a new agent, 1.0, so every action is drawn at
    random.  Here the file holds parameters under which action 1 is the
    greedy one in the first state, and all three actions taken are 0. *)
Theorem run_sim_routine_acts_at_random :
  sim_summary
    (run_sim_routine (NN := dense_network) (E := countdown_env) 10 zero_entropy 3
       [favour_action_1] 1 2 zero_junk (ternary_init 0) (ternary_init 1))
  = Some ([0%Z; 0%Z; 0%Z], 3%Q) /\
  (let* ag := load_model_weights
                (DDQNAgent_init (NN := dense_network) zero_junk
                   (ternary_init 0) (ternary_init 1) 1 2)
                [favour_action_1] in
   greedy_action ag (Mat [[3%Q]])) = Ok 1%Z.
Proof. split; vm_compute; reflexivity. Qed.

(** ** The training loop *)

Lemma trains_gated_nil bs : trains_gated bs [].
Proof. intros newer older Hlog. by destruct newer. Qed.

Lemma trains_gated_cons bs c log :
  c <> CallTrain -> trains_gated bs log -> trains_gated bs (c :: log).
Proof.
  intros Hc Hg newer older Hlog. destruct newer as [|c' newer]; simpl in Hlog.
  - congruence.
  - injection Hlog as _ Hlog. eauto.
Qed.

Lemma trains_gated_train bs log :
  bs <= count_stores log -> trains_gated bs log -> trains_gated bs (CallTrain :: log).
Proof.
  intros Hbs Hg newer older Hlog. destruct newer as [|c' newer]; simpl in Hlog.
  - injection Hlog as <-. assumption.
  - injection Hlog as _ Hlog. eauto.
Qed.

Section TrainingLoop.
Context {R : Type} {SR : Scalar R} {NN : Approximator R} {E : Env R}.

(** Lines 139-143: either nothing happens, or the three calls are made,
    and then the step counter has reached the batch size. *)
Lemma learn_spec cfg total (ag : DDQNAgent R) g log ag' g' log' :
  learn cfg total ag g log = Ok (ag', g', log') ->
  (ag' = ag /\ g' = g /\ log' = log) \/
  (batch_size cfg <= total /\
   total mod q_network_update_freq cfg = 0 /\
   exists ag1 ag2,
     train ag (batch_size cfg) g = Ok (ag1, g') /\
     update_q_target_network ag1 = Ok ag2 /\
     ag' = update_epsilon ag2 /\
     log' = CallDecay :: CallSync :: CallTrain :: log).
Proof.
  unfold learn. intros Hl. repeat case_decide; try discriminate.
  - right. bind_inv Hl. destruct x as [ag1 g1]. bind_inv Hl. inv_Ok Hl.
    split; [assumption|]. split; [assumption|]. eauto 10.
  - left. inv_Ok Hl. auto.
  - left. inv_Ok Hl. auto.
Qed.

Lemma learn_log cfg total (ag : DDQNAgent R) g log ag' g' log' :
  learn cfg total ag g log = Ok (ag', g', log') ->
  count_stores log' = count_stores log /\
  count_saves log' = count_saves log /\
  count_resets log' = count_resets log /\
  (count_stores log = total -> trains_gated (batch_size cfg) log ->
   trains_gated (batch_size cfg) log').
Proof.
  intros Hl. apply learn_spec in Hl as [(_ & _ & ->)|(Hbs & _ & ag1 & ag2 & _ & _ & _ & ->)].
  - auto.
  - simpl. repeat split. intros Hc Hg.
    apply trains_gated_cons; [discriminate|].
    apply trains_gated_cons; [discriminate|].
    apply trains_gated_train; [lia | assumption].
Qed.

(** What the steps of an episode keep and change. *)
Lemma run_steps_inv cfg k (st st' : Run R) cs rw rw' :
  run_steps cfg k st cs rw = Ok (st', rw') ->
  log_consistent (batch_size cfg) st ->
  log_consistent (batch_size cfg) st' /\
  disk st' = disk st /\
  reward_history st' = reward_history st /\
  count_saves (calls st') = count_saves (calls st) /\
  count_resets (calls st') = count_resets (calls st) /\
  successfull_episodes st <= successfull_episodes st' <= S (successfull_episodes st).
Proof.
  revert st cs rw. induction k as [|k IH]; intros st cs rw Hr Hinv.
  - simpl in Hr. inv_Ok Hr. split; [assumption|]. repeat split; auto.
  - simpl in Hr. bind_inv Hr. destruct x as [action g1].
    destruct (env_step (env st) action) as [[[obs reward] dn] e1].
    bind_inv Hr. bind_inv Hr. destruct x0 as [[ag2 g2] log2].
    destruct Hinv as [Hcount Hgated].
    destruct (learn_log _ _ _ _ _ _ _ _ Hm1) as (Hst & Hsv & Hrs & Hg).
    simpl in Hst, Hsv, Hrs, Hg.
    assert (Hinv' : forall n,
               log_consistent (batch_size cfg)
                 {| agent := ag2; rng := g2; env := e1; disk := disk st;
                    total_steps := S (total_steps st); successfull_episodes := n;
                    reward_history := reward_history st; calls := log2 |}).
    { intros n. split; simpl.
      - rewrite Hst. by rewrite Hcount.
      - apply Hg; [by rewrite Hcount|].
        repeat (apply trains_gated_cons; [discriminate|]). assumption. }
    destruct dn.
    + destruct (sc_leb _ _); inv_Ok Hr; simpl;
        (split; [apply Hinv'|]); repeat split; auto.
    + destruct (IH _ _ _ Hr (Hinv' _)) as (Hi & Hd & Hh & Hs1 & Hr1 & Hsucc).
      simpl in *. split; [exact Hi|]. repeat split; try congruence; lia.
Qed.

Lemma run_steps_history cfg k (st st' : Run R) cs rw rw' :
  run_steps cfg k st cs rw = Ok (st', rw') ->
  reward_history st' = reward_history st.
Proof.
  revert st cs rw. induction k as [|k IH]; intros st cs rw Hr.
  - simpl in Hr. by inv_Ok Hr.
  - simpl in Hr. bind_inv Hr. destruct x as [action g1].
    destruct (env_step (env st) action) as [[[obs reward] dn] e1].
    bind_inv Hr. bind_inv Hr. destruct x0 as [[ag2 g2] log2].
    destruct dn.
    + destruct (sc_leb _ _); by inv_Ok Hr.
    + by rewrite (IH _ _ _ Hr).
Qed.

(** An environment that never signals the end: no episode is counted. *)
Lemma run_steps_never_done cfg k (st st' : Run R) cs rw rw' :
  (forall s a, (env_step s a).1.2 = false) ->
  run_steps cfg k st cs rw = Ok (st', rw') ->
  successfull_episodes st' = successfull_episodes st.
Proof.
  intros Hnever. revert st cs rw. induction k as [|k IH]; intros st cs rw Hr.
  - simpl in Hr. by inv_Ok Hr.
  - simpl in Hr. bind_inv Hr. destruct x as [action g1].
    pose proof (Hnever (env st) action) as Hdn.
    destruct (env_step (env st) action) as [[[obs reward] dn] e1].
    simpl in Hdn. subst dn.
    bind_inv Hr. bind_inv Hr. destruct x0 as [[ag2 g2] log2].
    by rewrite (IH _ _ _ Hr).
Qed.

Lemma run_episode_inv cfg (st st' : Run R) :
  run_episode cfg st = Ok st' ->
  log_consistent (batch_size cfg) st ->
  log_consistent (batch_size cfg) st' /\
  disk st' = disk st /\
  (exists rw, reward_history st' = reward_history st ++ [rw]) /\
  count_saves (calls st') = count_saves (calls st) /\
  count_resets (calls st') = S (count_resets (calls st)) /\
  successfull_episodes st <= successfull_episodes st' <= S (successfull_episodes st).
Proof.
  unfold run_episode. intros Hr [Hcount Hgated].
  destruct (env_reset (env st)) as [obs e0].
  bind_inv Hr. destruct x as [st1 rw]. inv_Ok Hr.
  apply run_steps_inv in Hm as ([Hc1 Hg1] & Hd & Hh & Hsv & Hrs & Hsucc).
  - simpl in *. split; [split; assumption|]. split; [assumption|].
    split; [exists rw; by rewrite Hh|]. split; [assumption|].
    split; [assumption | lia].
  - split; simpl; [assumption|]. by apply trains_gated_cons.
Qed.

Lemma run_episode_never_done cfg (st st' : Run R) :
  (forall s a, (env_step s a).1.2 = false) ->
  run_episode cfg st = Ok st' ->
  successfull_episodes st' = successfull_episodes st.
Proof.
  unfold run_episode. intros Hnever Hr.
  destruct (env_reset (env st)) as [obs e0].
  bind_inv Hr. destruct x as [st1 rw]. inv_Ok Hr. simpl.
  by rewrite (run_steps_never_done _ _ _ _ _ _ _ Hnever Hm).
Qed.

(** What a whole run keeps and changes: the weights are saved once, as
    the last call; one reward is recorded per episode started; and the
    count of successes stops at the threshold. *)
Lemma run_episodes_inv cfg k (st out : Run R) :
  run_episodes cfg k st = Ok out ->
  log_consistent (batch_size cfg) st ->
  trains_gated (batch_size cfg) (calls out) /\
  (exists log, calls out = CallSave :: log /\
               count_saves log = count_saves (calls st)) /\
  disk out = weights (q_model (agent out)) :: disk st /\
  (exists rws, reward_history out = reward_history st ++ rws /\
               length rws <= k /\
               count_resets (calls out) = count_resets (calls st) + length rws) /\
  (successfull_episodes st < successfull_episodes_threshold cfg ->
   successfull_episodes out <= successfull_episodes_threshold cfg).
Proof.
  revert st. induction k as [|k IH]; intros st Hr Hinv.
  - simpl in Hr. inv_Ok Hr. simpl. destruct Hinv as [_ Hg].
    split; [by apply trains_gated_cons|]. split; [eauto|]. split; [reflexivity|].
    split; [|lia]. exists []. rewrite app_nil_r. simpl. split; [reflexivity|]. lia.
  - simpl in Hr. bind_inv Hr.
    destruct (run_episode_inv _ _ _ Hm Hinv)
      as (Hinv1 & Hd & (rw & Hh) & Hsv & Hrs & Hsucc).
    case_decide as Hthr.
    + inv_Ok Hr. simpl. destruct Hinv1 as [_ Hg].
      split; [by apply trains_gated_cons|]. split; [eauto|].
      split; [by rewrite Hd|].
      split; [|lia]. exists [rw]. simpl. split; [assumption|]. split; lia.
    + destruct (IH _ Hr Hinv1) as (Hg & (log & Hlog & Hsv') & Hd' & (rws & Hh' & Hlen & Hrs') & Hsucc').
      split; [assumption|]. split; [exists log; split; [assumption | congruence]|].
      split; [congruence|].
      split; [|intros _; apply Hsucc'; lia].
      exists (rw :: rws). rewrite Hh', Hh, <- app_assoc. simpl.
      split; [reflexivity|]. split; lia.
Qed.

(** With an environment that never signals the end, every episode of
    the schedule is run and none is counted, whatever its reward. *)
Lemma run_episodes_never_done cfg k (st out : Run R) :
  (forall s a, (env_step s a).1.2 = false) ->
  successfull_episodes st < successfull_episodes_threshold cfg ->
  run_episodes cfg k st = Ok out ->
  successfull_episodes out = successfull_episodes st /\
  length (reward_history out) = length (reward_history st) + k.
Proof.
  intros Hnever. revert st. induction k as [|k IH]; intros st Hlt Hr.
  - simpl in Hr. inv_Ok Hr. simpl. split; [reflexivity|lia].
  - simpl in Hr. bind_inv Hr.
    pose proof (run_episode_never_done _ _ _ Hnever Hm) as Hs.
    assert (Hh : length (reward_history x) = S (length (reward_history st))).
    { unfold run_episode in Hm. destruct (env_reset (env st)) as [obs e0].
      bind_inv Hm. destruct x0 as [st1 rw]. inv_Ok Hm. simpl.
      rewrite (run_steps_history _ _ _ _ _ _ _ Hm0), length_app. simpl. lia. }
    case_decide as Hthr; [lia|].
    destruct (IH x ltac:(lia) Hr) as [Hs' Hl'].
    split; [congruence|lia].
Qed.
End TrainingLoop.

Section Gating.
Context {R : Type} {SR : Scalar R} {NN : Approximator R} {E : Env R}.

Lemma initial_run_consistent bs (ag : DDQNAgent R) g (e : env_state) d :
  log_consistent bs
    {| agent := ag; rng := g; env := e; disk := d; total_steps := 0;
       successfull_episodes := 0; reward_history := []; calls := [] |}.
Proof. split; [reflexivity | apply trains_gated_nil]. Qed.

(** C4: once a transition has been stored, the sampling step of [train]
    (lines 75-82) succeeds and draws only indices of the valid range,
    [0, p) before the buffer is full and [0, C) after, and every slot it
    reads holds a transition that was stored; and in a run of the
    training loop every call of [train] comes after at least
    [batch_size] calls of [store_episode]. *)
Theorem sampling_valid_and_gated :
  (forall C (self : DDQNAgent R) (ts : list (Transition R)),
      0 < C -> empty_buffer C self -> ts <> [] ->
      exists self',
        store_all self ts = Ok self' /\
        forall n g,
          exists b g',
            sample_batch self' n g = Ok (b, g') /\
            length (batch_indices b) = n /\
            forall i, i ∈ batch_indices b ->
              (if buffer_full self' then i < C else i < memory_buffer_pointer self') /\
              exists j t, ts !! j = Some t /\ slot_holds self' i t) /\
  (forall cfg g (e : env_state) d state_size action_size junk init_q init_target out,
      run_training_routine cfg g e d state_size action_size junk init_q init_target
      = Ok out ->
      trains_gated (batch_size cfg) (calls out)).
Proof.
  split.
  - intros C self ts HC Hempty Hts.
    destruct (store_all_total C ts self HC Hempty) as [self' Hs].
    exists self'. split; [assumption|].
    pose proof (store_all_after C ts self self' HC Hempty Hs) as Hafter.
    pose proof (buffer_end_ptr_after C ts self' HC Hafter) as Hend.
    assert (Hlen : 0 < length ts) by (destruct ts; [congruence | simpl; lia]).
    intros n g.
    destruct (sample_batch_total self' n g) as (b & g' & Hb).
    { by destruct Hafter as (_ & ? & _). }
    { lia. }
    exists b, g'. split; [assumption|].
    destruct (sample_batch_spec _ _ _ _ _ Hb) as [Hidx _].
    destruct (random_choices_spec _ _ _ _ _ Hidx) as [Hn Hlt].
    split; [assumption|]. intros i Hi. specialize (Hlt i Hi). split.
    + destruct Hafter as (Hsz & _ & Hp & Hf & _).
      unfold buffer_end_ptr in Hlt. destruct (buffer_full self'); simpl in Hlt; lia.
    + destruct (valid_slot_written C ts self' i HC Hafter Hlt) as (j & t & Hj & _ & _ & Hslot).
      eauto.
  - intros cfg g e d state_size action_size junk init_q init_target out Hrun.
    unfold run_training_routine in Hrun.
    by destruct (run_episodes_inv _ _ _ _ Hrun (initial_run_consistent _ _ _ _ _)).
Qed.
End Gating.

(** A run in which training starts at the second step. *)
Lemma eager_run_summary :
  run_summary
    (run_training_routine (NN := dense_network) (E := countdown_env) eager_config
       counting_entropy 3 [] 1 2 zero_junk (ternary_init 0) (ternary_init 1))
  = Some ([3%Q], 0,
          [CallSave; CallStore; CallStep; CallAction 1; CallDecay; CallSync;
           CallTrain; CallStore; CallStep; CallAction 1; CallStore; CallStep;
           CallAction 1; CallReset], 1).
Proof. vm_compute. reflexivity. Qed.

Lemma sampling_valid_and_gated_witness :
  (exists self',
      store_all tiny_agent sample_transitions = Ok self' /\
      forall n g, exists b g',
        sample_batch self' n g = Ok (b, g') /\ length (batch_indices b) = n) /\
  (exists out,
      run_training_routine (NN := dense_network) (E := countdown_env) eager_config
        counting_entropy 3 [] 1 2 zero_junk (ternary_init 0) (ternary_init 1)
      = Ok out /\
      trains_gated 2 (calls out) /\ CallTrain ∈ calls out).
Proof.
  destruct (sampling_valid_and_gated (R := Q) (NN := dense_network)
              (E := countdown_env)) as [Hsample Hgate].
  split.
  - destruct (Hsample 2 tiny_agent sample_transitions) as (self' & Hs & Hb).
    + lia.
    + apply DDQNAgent_sized_empty.
    + discriminate.
    + exists self'. split; [exact Hs|]. intros n g.
      destruct (Hb n g) as (b & g' & Hok & Hlen & _). eauto.
  - pose proof eager_run_summary as Hsum.
    match type of Hsum with
    | run_summary ?r = _ => destruct r as [out|e] eqn:Hrun
    end; [|discriminate Hsum].
    exists out. split; [reflexivity|]. split; [exact (Hgate _ _ _ _ _ _ _ _ _ _ Hrun)|].
    simpl in Hsum. injection Hsum as _ _ Hcalls _. rewrite Hcalls.
    repeat constructor.
Defined.

(** C9 fails on the code.  An episode is counted as successful only
    under [if done]: one that is cut by the step limit is never counted,
    whatever its reward.  Here every episode collects a reward of 2, the
    success threshold is 2 and one success is enough, yet all three
    episodes are run and none is counted. *)
Theorem run_training_routine_skips_capped_episodes :
  exists log,
    run_summary
      (run_training_routine (NN := dense_network) (E := steady_env) short_config
         counting_entropy tt [] 1 2 zero_junk (ternary_init 0) (ternary_init 1))
    = Some ([2%Q; 2%Q; 2%Q], 0, log, 1) /\
    count_resets log = 3 /\ count_saves log = 1.
Proof. eexists. split; [vm_compute; reflexivity|]. split; reflexivity. Qed.

(** The scenario of C9 which the code does follow: the first step of
    the first episode ends it with reward 1000, one success is enough,
    and the run stops there, saving once. *)
Lemma run_training_routine_jackpot :
  run_summary
    (run_training_routine (NN := dense_network) (E := jackpot_env)
       {| success_threshold := 180; successfull_episodes_threshold := 1;
          n_episodes := 75; max_iterations_ep := 400; batch_size := 256;
          q_network_update_freq := 4 |}
       counting_entropy tt [] 1 2 zero_junk (ternary_init 0) (ternary_init 1))
  = Some ([1000%Q], 1, [CallSave; CallStore; CallStep; CallAction 1; CallReset], 1).
Proof. vm_compute. reflexivity. Qed.

(** * Further properties of the code *)

(** ** [store_episode]: errors and invariants *)

Section StoreEdges.
Context {R : Type} {SR : Scalar R} {NN : Approximator R}.

Lemma np_set_row_Ok (arr arr' : list (list R)) p x :
  np_set_row arr p x = Ok arr' -> p < length arr /\ length arr' = length arr.
Proof.
  unfold np_set_row. intros Hs.
  destruct x as [row|[|row [|row' rows]]]; try discriminate;
    apply np_set_Ok in Hs as [Hp ->]; by rewrite length_insert.
Qed.

(** X1: a store that succeeds keeps the five arrays at their size,
    leaves the pointer inside them and never clears the full flag. *)
Theorem store_episode_invariants (self self' : DDQNAgent R) s a r s' d :
  arrays_sized self ->
  store_episode self s a r s' d = Ok self' ->
  arrays_sized self' /\
  memory_buffer_size self' = memory_buffer_size self /\
  memory_buffer_pointer self' < memory_buffer_size self' /\
  (buffer_full self = true -> buffer_full self' = true).
Proof.
  intros (L1 & L2 & L3 & L4 & L5). unfold store_episode. intros Hs.
  bind_inv Hs. bind_inv Hs. bind_inv Hs. bind_inv Hs. bind_inv Hs. inv_Ok Hs.
  apply np_set_row_Ok in Hm as [Hp E1]. apply np_set_row_Ok in Hm0 as [_ E2].
  apply np_set_Ok in Hm1 as [_ ->]. apply np_set_Ok in Hm2 as [_ ->].
  apply np_set_Ok in Hm3 as [_ ->].
  unfold arrays_sized. simpl. rewrite !length_insert.
  split; [repeat split; congruence|]. split; [reflexivity|].
  split; [|by case_bool_decide].
  case_bool_decide; lia.
Qed.

(** X2: with the pointer beyond the arrays, a store raises IndexError;
    with the pointer inside, it succeeds. *)
Theorem store_transition_succeeds_iff (self : DDQNAgent R) (t : Transition R) :
  arrays_sized self ->
  (memory_buffer_size self <= memory_buffer_pointer self ->
   store_transition self t = Raise IndexError) /\
  (memory_buffer_pointer self < memory_buffer_size self ->
   exists self', store_transition self t = Ok self').
Proof.
  intros Hsized. split.
  - destruct Hsized as (L1 & _). intros Hp.
    unfold store_transition, store_episode, np_set_row, np_set. simpl.
    rewrite decide_False by lia. reflexivity.
  - by apply store_transition_total.
Qed.
End StoreEdges.

Lemma store_episode_invariants_witness :
  exists self',
    store_episode tiny_agent (Vec [1%Q]) 1 1%Q (Vec [2%Q]) false = Ok self' /\
    memory_buffer_pointer self' < memory_buffer_size self'.
Proof.
  assert (Hsized : arrays_sized tiny_agent)
    by (by destruct (DDQNAgent_sized_empty (NN := dense_network) 2 zero_junk
                       (ternary_init 0) (ternary_init 1) 1 2) as (_ & _ & _ & ?)).
  destruct (store_episode tiny_agent (Vec [1%Q]) 1 1%Q (Vec [2%Q]) false)
    as [self'|e] eqn:Hs.
  - exists self'. split; [reflexivity|].
    by destruct (store_episode_invariants _ _ _ _ _ _ _ Hsized Hs) as (_ & _ & ? & _).
  - exfalso.
    assert (Hok : is_ok (store_episode tiny_agent (Vec [1%Q]) 1 1%Q (Vec [2%Q]) false)
                  = true) by (vm_compute; reflexivity).
    rewrite Hs in Hok. discriminate Hok.
Defined.

(** An agent of capacity zero: the first store already fails. *)
Lemma store_transition_succeeds_iff_witness :
  store_transition
    (DDQNAgent_sized (NN := dense_network) 0 zero_junk
       (ternary_init 0) (ternary_init 1) 1 2)
    {| t_state := [1%Q]; t_action := 1; t_reward := 1%Q;
       t_next_state := [2%Q]; t_done := false |}
  = Raise IndexError.
Proof.
  destruct (store_transition_succeeds_iff
              (DDQNAgent_sized (NN := dense_network) 0 zero_junk
                 (ternary_init 0) (ternary_init 1) 1 2)
              {| t_state := [1%Q]; t_action := 1; t_reward := 1%Q;
                 t_next_state := [2%Q]; t_done := false |}) as [Hraise _].
  - by destruct (DDQNAgent_sized_empty (NN := dense_network) 0 zero_junk
                   (ternary_init 0) (ternary_init 1) 1 2) as (_ & _ & _ & ?).
  - apply Hraise. simpl. lia.
Defined.

(** ** [train] and [compute_action]: edge behaviour *)

Section TrainEdges.
Context {R : Type} {SR : Scalar R} {NN : Approximator R}.

(** X3: on an agent that has stored nothing yet, [train] with a batch
    that is not empty raises ValueError (from the draw of the indices);
    nothing is read from the uninitialised arrays. *)
Theorem train_before_any_store_raises C (self : DDQNAgent R) n g :
  empty_buffer C self -> 0 < n -> train self n g = Raise ValueError.
Proof.
  intros (_ & Hp & Hf & _) Hn. unfold train, sample_batch, buffer_end_ptr.
  rewrite Hf, Hp. simpl. destruct n as [|n]; [lia|]. reflexivity.
Qed.


End TrainEdges.

Lemma train_before_any_store_raises_witness :
  train tiny_agent 2 counting_entropy = Raise ValueError.
Proof.
  apply (train_before_any_store_raises 2).
  - apply DDQNAgent_sized_empty.
  - lia.
Defined.


(** ** The greedy action *)

Section Greedy.
Context {NN : Approximator Q}.
Local Open Scope Q_scope.


End Greedy.


(** ** The training loop: what every run does *)

Section RunProperties.
Context {R : Type} {SR : Scalar R} {NN : Approximator R} {E : Env R}.

(** A property of the step counter and the log that every kind of call
    keeps is kept by the whole loop. *)
Section LogInduction.
Variable P : nat -> list call -> Prop.
Hypothesis P_step : forall n log a,
  P n log -> P (S n) (CallStore :: CallStep :: CallAction a :: log).
Hypothesis P_learn : forall n log,
  P n log -> P n (CallDecay :: CallSync :: CallTrain :: log).
Hypothesis P_reset : forall n log, P n log -> P n (CallReset :: log).
Hypothesis P_save : forall n log, P n log -> P n (CallSave :: log).

Lemma run_steps_log_ind cfg k (st st' : Run R) cs rw rw' :
  run_steps cfg k st cs rw = Ok (st', rw') ->
  P (total_steps st) (calls st) -> P (total_steps st') (calls st').
Proof using P_step P_learn.
  revert st cs rw. induction k as [|k IH]; intros st cs rw Hr HP.
  - simpl in Hr. by inv_Ok Hr.
  - simpl in Hr. bind_inv Hr. destruct x as [action g1].
    destruct (env_step (env st) action) as [[[obs reward] dn] e1].
    bind_inv Hr. bind_inv Hr. destruct x0 as [[ag2 g2] log2].
    assert (HP2 : P (S (total_steps st)) log2).
    { apply learn_spec in Hm1 as [(_ & _ & ->)|(_ & _ & ag1 & ag3 & _ & _ & _ & ->)];
        [|apply P_learn]; by apply P_step. }
    destruct dn.
    + destruct (sc_leb _ _); by inv_Ok Hr.
    + by apply (IH _ _ _ Hr).
Qed.

Lemma run_episodes_log_ind cfg k (st out : Run R) :
  run_episodes cfg k st = Ok out ->
  P (total_steps st) (calls st) -> P (total_steps out) (calls out).
Proof using P_step P_learn P_reset P_save.
  revert st. induction k as [|k IH]; intros st Hr HP.
  - simpl in Hr. inv_Ok Hr. simpl. by apply P_save.
  - simpl in Hr. bind_inv Hr.
    assert (HP1 : P (total_steps x) (calls x)).
    { unfold run_episode in Hm. destruct (env_reset (env st)) as [obs e0].
      bind_inv Hm. destruct x0 as [st1 rw]. inv_Ok Hm. simpl.
      apply (run_steps_log_ind _ _ _ _ _ _ _ Hm0). simpl. by apply P_reset. }
    case_decide.
    + inv_Ok Hr. simpl. by apply P_save.
    + by apply (IH _ Hr).
Qed.
End LogInduction.

Lemma run_steps_total_bound cfg k (st st' : Run R) cs rw rw' :
  run_steps cfg k st cs rw = Ok (st', rw') ->
  total_steps st' <= total_steps st + k.
Proof.
  revert st cs rw. induction k as [|k IH]; intros st cs rw Hr.
  - simpl in Hr. inv_Ok Hr. lia.
  - simpl in Hr. bind_inv Hr. destruct x as [action g1].
    destruct (env_step (env st) action) as [[[obs reward] dn] e1].
    bind_inv Hr. bind_inv Hr. destruct x0 as [[ag2 g2] log2].
    destruct dn.
    + destruct (sc_leb _ _); inv_Ok Hr; simpl; lia.
    + apply IH in Hr. simpl in Hr. lia.
Qed.

Lemma run_episode_history_length cfg (st st' : Run R) :
  run_episode cfg st = Ok st' ->
  length (reward_history st') = S (length (reward_history st)) /\
  total_steps st' <= total_steps st + max_iterations_ep cfg.
Proof.
  unfold run_episode. intros Hr. destruct (env_reset (env st)) as [obs e0].
  bind_inv Hr. destruct x as [st1 rw]. inv_Ok Hr. simpl.
  rewrite (run_steps_history _ _ _ _ _ _ _ Hm), length_app. simpl.
  apply run_steps_total_bound in Hm. simpl in Hm. lia.
Qed.

Lemma run_episodes_extent cfg k (st out : Run R) :
  run_episodes cfg k st = Ok out ->
  length (reward_history st) <= length (reward_history out) /\
  length (reward_history out) <= length (reward_history st) + k /\
  (length (reward_history out) = length (reward_history st) + k \/
   successfull_episodes_threshold cfg <= successfull_episodes out) /\
  total_steps out
  <= total_steps st
     + (length (reward_history out) - length (reward_history st))
       * max_iterations_ep cfg.
Proof.
  revert st. induction k as [|k IH]; intros st Hr.
  - simpl in Hr. inv_Ok Hr. simpl. lia.
  - simpl in Hr. bind_inv Hr.
    destruct (run_episode_history_length _ _ _ Hm) as [Hlen Htot].
    case_decide as Hthr.
    + inv_Ok Hr. simpl. rewrite Hlen.
      replace (S (length (reward_history st)) - length (reward_history st)) with 1
        by lia.
      lia.
    + destruct (IH _ Hr) as (Hmono & Hle & Hor & Hsteps).
      rewrite Hlen in Hmono, Hle, Hor, Hsteps.
      replace (length (reward_history out) - length (reward_history st))
        with (S (length (reward_history out) - S (length (reward_history st))))
        by lia.
      split; [lia|]. split; [lia|]. split; [lia|]. simpl. lia.
Qed.

(** X9: a run that returns has written the weights file exactly once,
    as its very last call, and the file then holds the parameters of the
    online network as the run leaves it. *)
Theorem run_training_routine_saves_once cfg g (e : env_state) d
    state_size action_size junk init_q init_target out :
  run_training_routine cfg g e d state_size action_size junk init_q init_target
  = Ok out ->
  (exists log, calls out = CallSave :: log /\ count_saves log = 0) /\
  disk out = weights (q_model (agent out)) :: d.
Proof.
  unfold run_training_routine. intros Hrun.
  destruct (run_episodes_inv _ _ _ _ Hrun (initial_run_consistent _ _ _ _ _))
    as (_ & (log & Hlog & Hsv) & Hdisk & _).
  split; [exists log; auto | exact Hdisk].
Qed.

(** X10: the reward history has one entry per episode started and at
    most [n_episodes]; it is shorter than [n_episodes] only if the count
    of successes has reached its threshold; and that count never passes
    a threshold of one or more. *)
Theorem run_training_routine_extent cfg g (e : env_state) d
    state_size action_size junk init_q init_target out :
  run_training_routine cfg g e d state_size action_size junk init_q init_target
  = Ok out ->
  length (reward_history out) = count_resets (calls out) /\
  length (reward_history out) <= n_episodes cfg /\
  (length (reward_history out) < n_episodes cfg ->
   successfull_episodes_threshold cfg <= successfull_episodes out) /\
  (0 < successfull_episodes_threshold cfg ->
   successfull_episodes out <= successfull_episodes_threshold cfg).
Proof.
  unfold run_training_routine. intros Hrun.
  destruct (run_episodes_inv _ _ _ _ Hrun (initial_run_consistent _ _ _ _ _))
    as (_ & _ & _ & (rws & Hh & _ & Hrs) & Hsucc).
  destruct (run_episodes_extent _ _ _ _ Hrun) as (_ & Hle & Hor & _).
  simpl in *. rewrite Hh. split; [lia|]. rewrite Hh in Hle, Hor.
  split; [lia|]. split; [lia|]. exact Hsucc.
Qed.

(** X11: [train], the soft update of the target network and the decay
    of epsilon are always called together: in the log of a run they are
    equally many. *)
Theorem run_training_routine_learns_in_threes cfg g (e : env_state) d
    state_size action_size junk init_q init_target out :
  run_training_routine cfg g e d state_size action_size junk init_q init_target
  = Ok out ->
  count_trains (calls out) = count_syncs (calls out) /\
  count_trains (calls out) = count_decays (calls out).
Proof.
  unfold run_training_routine. intros Hrun.
  apply (run_episodes_log_ind
           (fun _ log => count_trains log = count_syncs log /\
                         count_trains log = count_decays log)) in Hrun;
    simpl; try tauto; intros; lia.
Qed.

(** X12: every step of the environment is followed by exactly one store:
    the global step counter is the number of steps taken and the number
    of transitions stored, and it is at most one [max_iterations_ep] per
    episode run. *)
Theorem run_training_routine_counts_steps cfg g (e : env_state) d
    state_size action_size junk init_q init_target out :
  run_training_routine cfg g e d state_size action_size junk init_q init_target
  = Ok out ->
  count_stores (calls out) = total_steps out /\
  count_steps (calls out) = total_steps out /\
  total_steps out <= length (reward_history out) * max_iterations_ep cfg /\
  total_steps out <= n_episodes cfg * max_iterations_ep cfg.
Proof.
  unfold run_training_routine. intros Hrun.
  assert (Hcount : count_stores (calls out) = total_steps out /\
                   count_steps (calls out) = total_steps out).
  { eapply (run_episodes_log_ind
              (fun n log => count_stores log = n /\ count_steps log = n));
      [| | | | exact Hrun |]; intros; simpl in *; lia. }
  destruct Hcount as [Hst Hsp].
  destruct (run_episodes_extent _ _ _ _ Hrun) as (_ & Hle & _ & Hsteps).
  simpl in Hle, Hsteps. rewrite Nat.sub_0_r in Hsteps.
  split; [assumption|]. split; [assumption|]. split; [lia|]. nia.
Qed.
End RunProperties.

(** Take the run of [eager_run_summary] apart. *)
Ltac with_eager_run out Hrun :=
  let Hsum := fresh "Hsum" in
  pose proof eager_run_summary as Hsum;
  match type of Hsum with
  | run_summary ?r = _ => destruct r as [out|] eqn:Hrun
  end; [|discriminate Hsum]; clear Hsum.

Lemma run_training_routine_saves_once_witness :
  exists out,
    run_training_routine (NN := dense_network) (E := countdown_env) eager_config
      counting_entropy 3 [] 1 2 zero_junk (ternary_init 0) (ternary_init 1)
    = Ok out /\
    disk out = [weights (q_model (agent out))].
Proof.
  with_eager_run out Hrun. exists out. split; [reflexivity|].
  by destruct (run_training_routine_saves_once _ _ _ _ _ _ _ _ _ _ Hrun).
Defined.

Lemma run_training_routine_extent_witness :
  exists out,
    run_training_routine (NN := dense_network) (E := countdown_env) eager_config
      counting_entropy 3 [] 1 2 zero_junk (ternary_init 0) (ternary_init 1)
    = Ok out /\
    length (reward_history out) = count_resets (calls out) /\
    length (reward_history out) <= 1.
Proof.
  with_eager_run out Hrun. exists out. split; [reflexivity|].
  destruct (run_training_routine_extent _ _ _ _ _ _ _ _ _ _ Hrun) as (H1 & H2 & _).
  split; [exact H1 | exact H2].
Defined.

Lemma run_training_routine_learns_in_threes_witness :
  exists out,
    run_training_routine (NN := dense_network) (E := countdown_env) eager_config
      counting_entropy 3 [] 1 2 zero_junk (ternary_init 0) (ternary_init 1)
    = Ok out /\
    count_trains (calls out) = count_syncs (calls out) /\
    count_trains (calls out) = count_decays (calls out).
Proof.
  with_eager_run out Hrun. exists out. split; [reflexivity|].
  exact (run_training_routine_learns_in_threes _ _ _ _ _ _ _ _ _ _ Hrun).
Defined.

Lemma run_training_routine_counts_steps_witness :
  exists out,
    run_training_routine (NN := dense_network) (E := countdown_env) eager_config
      counting_entropy 3 [] 1 2 zero_junk (ternary_init 0) (ternary_init 1)
    = Ok out /\
    count_stores (calls out) = total_steps out /\
    total_steps out <= 1 * 4.
Proof.
  with_eager_run out Hrun. exists out. split; [reflexivity|].
  destruct (run_training_routine_counts_steps _ _ _ _ _ _ _ _ _ _ Hrun)
    as (H1 & _ & _ & H4).
  split; [exact H1 | exact H4].
Defined.

(** Two weights files of one shape: the evaluation episodes agree. *)
Lemma run_sim_routine_ignores_file_witness :
  run_sim_routine (NN := dense_network) (E := countdown_env) 10 zero_entropy 3
    [favour_action_1] 1 2 zero_junk (ternary_init 0) (ternary_init 1)
  = run_sim_routine (NN := dense_network) (E := countdown_env) 10 zero_entropy 3
      [map (map (fun _ => 1%Q)) favour_action_1] 1 2 zero_junk
      (ternary_init 0) (ternary_init 1).
Proof.
  apply run_sim_routine_ignores_file. vm_compute. reflexivity.
Defined.

(** ** The exploration schedule of a new agent *)

Section Schedule.
Context {NN : Approximator Q}.
Local Open Scope Q_scope.

Lemma decay_times_epsilon_ext {NN' : Approximator Q}
    (a : DDQNAgent Q (NN := NN)) (b : DDQNAgent Q (NN := NN')) k :
  epsilon a = epsilon b -> epsilon_decay a = epsilon_decay b ->
  min_epsilon a = min_epsilon b ->
  epsilon (decay_times k a) = epsilon (decay_times k b).
Proof.
  revert a b. induction k as [|k IH]; intros a b He Hd Hm; [assumption|].
  simpl. apply IH; simpl; congruence.
Qed.

Lemma update_epsilon_at_floor (self : DDQNAgent Q) :
  epsilon self == min_epsilon self ->
  0 < epsilon_decay self <= 1 -> 0 <= min_epsilon self ->
  epsilon (update_epsilon self) == min_epsilon self.
Proof.
  intros He [Hd0 Hd1] Hm. simpl. rewrite py_max_Q.
  apply Q.max_r. rewrite He. nra.
Qed.

(** X15: in exact arithmetic, the exploration rate of a newly built
    agent (1.0, multiplied by 0.995 at every training step, floor 0.1)
    is still above its floor after 459 training steps, equals 0.1 after
    460, and stays there. *)
Theorem exploration_reaches_floor C junk init_q init_target state_size action_size :
  let self := DDQNAgent_sized C junk init_q init_target state_size action_size in
  1 # 10 < epsilon (decay_times 459 self) /\
  forall j, epsilon (decay_times (460 + j) self) == 1 # 10.
Proof.
  intros self.
  assert (Hext : forall k,
             epsilon (decay_times k self) = epsilon (decay_times k tiny_agent)).
  { intros k. apply decay_times_epsilon_ext; reflexivity. }
  split.
  - rewrite Hext. vm_compute. reflexivity.
  - intros j. induction j as [|j IH].
    + rewrite Nat.add_0_r, Hext. vm_compute. reflexivity.
    + replace (460 + S j)%nat with (S (460 + j)) by lia.
      rewrite decay_times_S.
      destruct (decay_times_keeps self (460 + j)) as [Hd Hm].
      rewrite update_epsilon_at_floor; rewrite ?Hd, ?Hm.
      * reflexivity.
      * exact IH.
      * split; [reflexivity | discriminate].
      * discriminate.
Qed.
End Schedule.

(** ** The agent a run leaves behind *)

Lemma succ_mod_wrap (C n : nat) :
  n mod C < C ->
  S n mod C = (if bool_decide (C <= S (n mod C)) then 0 else S (n mod C)) /\
  bool_decide (C <= S n)
  = (if bool_decide (C <= S (n mod C)) then true else bool_decide (C <= n)).
Proof.
  intros Hp. assert (HC : C <> 0) by lia.
  pose proof (Nat.div_mod_eq n C) as Hn.
  case_bool_decide as Hw.
  - assert (Hs : S (n mod C) = C) by lia. split.
    + symmetry. apply (Nat.mod_unique _ _ (S (n / C))); lia.
    + apply bool_decide_eq_true. nia.
  - split.
    + symmetry. apply (Nat.mod_unique _ _ (n / C)); lia.
    + destruct (decide (C <= n)) as [Hle|Hlt].
      * rewrite !bool_decide_eq_true_2; [reflexivity | lia | lia].
      * assert (Hsmall : n mod C = n) by (apply Nat.mod_small; lia).
        rewrite !bool_decide_eq_false_2; [reflexivity | lia | lia].
Qed.

Lemma schedule_count (f bs n : nat) :
  (n / f - (bs - 1) / f)
  + (if decide (bs <= S n) then
       if decide (f = 0) then 0
       else if decide (S n mod f = 0) then 1 else 0
     else 0)
  = S n / f - (bs - 1) / f.
Proof.
  destruct (decide (f = 0)) as [->|Hf].
  - simpl. destruct (decide _); reflexivity.
  - pose proof (Nat.div_mod_eq n f) as Hn.
    pose proof (Nat.div_mod_eq (S n) f) as HSn.
    pose proof (Nat.mod_upper_bound n f Hf) as Hb.
    pose proof (Nat.mod_upper_bound (S n) f Hf) as HSb.
    assert (Hmono : bs <= S n -> (bs - 1) / f <= n / f)
      by (intros; apply Nat.Div0.div_le_mono; lia).
    assert (Hsmall : ~ bs <= S n -> S n / f <= (bs - 1) / f)
      by (intros; apply Nat.Div0.div_le_mono; lia).
    assert (Hstep : n / f <= S n / f) by (apply Nat.Div0.div_le_mono; lia).
    destruct (decide (bs <= S n)) as [Hbs|Hbs].
    + specialize (Hmono Hbs). destruct (decide (S n mod f = 0)) as [Hz|Hz].
      * assert (S n / f = S (n / f)) by nia. lia.
      * assert (S n / f = n / f) by nia. lia.
    + specialize (Hsmall Hbs). lia.
Qed.

Section FinalAgent.
Context {R : Type} {SR : Scalar R} {NN : Approximator R} {E : Env R}.

Lemma store_episode_step (self self' : DDQNAgent R) s a r s' d :
  store_episode self s a r s' d = Ok self' ->
  let p := memory_buffer_pointer self in
  let wrap := bool_decide (memory_buffer_size self <= S p) in
  memory_buffer_pointer self' = (if wrap then 0 else S p) /\
  buffer_full self' = (if wrap then true else buffer_full self) /\
  epsilon self' = epsilon self /\
  epsilon_decay self' = epsilon_decay self /\
  min_epsilon self' = min_epsilon self.
Proof.
  unfold store_episode. intros Hs. repeat (bind_inv Hs). inv_Ok Hs. simpl. auto.
Qed.

Lemma update_q_target_network_keeps (self self' : DDQNAgent R) :
  update_q_target_network self = Ok self' ->
  exists m, self' = set_q_target_model self m.
Proof.
  unfold update_q_target_network. intros Hu. bind_inv Hu. bind_inv Hu. inv_Ok Hu.
  eauto.
Qed.

Lemma learn_tracks cfg total (ag ag' ag0 : DDQNAgent R) g g' log log' :
  learn cfg total ag g log = Ok (ag', g', log') ->
  memory_buffer_size ag' = memory_buffer_size ag /\
  (arrays_sized ag -> arrays_sized ag') /\
  memory_buffer_pointer ag' = memory_buffer_pointer ag /\
  buffer_full ag' = buffer_full ag /\
  epsilon_decay ag' = epsilon_decay ag /\
  min_epsilon ag' = min_epsilon ag /\
  (epsilon_decay ag = epsilon_decay ag0 -> min_epsilon ag = min_epsilon ag0 ->
   epsilon ag = epsilon (decay_times (count_decays log) ag0) ->
   epsilon ag' = epsilon (decay_times (count_decays log') ag0)) /\
  count_trains log'
  = count_trains log
    + (if decide (batch_size cfg <= total) then
         if decide (q_network_update_freq cfg = 0) then 0
         else if decide (total mod q_network_update_freq cfg = 0) then 1 else 0
       else 0).
Proof.
  unfold learn. intros Hl. repeat case_decide; try discriminate.
  - bind_inv Hl. destruct x as [ag1 g1]. bind_inv Hl. inv_Ok Hl.
    destruct (train_steps _ _ _ _ _ Hm) as (b & y & m & _ & _ & _ & ->).
    apply update_q_target_network_keeps in Hm0 as [mt ->].
    split; [reflexivity|]. split; [exact (fun H => H)|].
    split; [reflexivity|]. split; [reflexivity|]. split; [reflexivity|].
    split; [reflexivity|]. split; [|simpl; lia].
    intros Hd Hmin He.
    change (count_decays (CallDecay :: CallSync :: CallTrain :: log))
      with (S (count_decays log)).
    rewrite decay_times_S. simpl.
    destruct (decay_times_keeps ag0 (count_decays log)) as [-> ->].
    by rewrite He, Hd, Hmin.
  - inv_Ok Hl. split; [reflexivity|]. split; [exact (fun H => H)|].
    split; [reflexivity|]. split; [reflexivity|]. split; [reflexivity|].
    split; [reflexivity|]. split; [auto | lia].
  - inv_Ok Hl. split; [reflexivity|]. split; [exact (fun H => H)|].
    split; [reflexivity|]. split; [reflexivity|]. split; [reflexivity|].
    split; [reflexivity|]. split; [auto | lia].
Qed.

Lemma run_steps_tracks cfg ag0 k (st st' : Run R) cs rw rw' :
  run_steps cfg k st cs rw = Ok (st', rw') ->
  agent_tracks cfg ag0 st -> agent_tracks cfg ag0 st'.
Proof.
  revert st cs rw. induction k as [|k IH]; intros st cs rw Hr Hinv.
  - simpl in Hr. by inv_Ok Hr.
  - simpl in Hr. bind_inv Hr. destruct x as [action g1].
    destruct (env_step (env st) action) as [[[obs reward] dn] e1].
    bind_inv Hr. bind_inv Hr. destruct x0 as [[ag2 g2] log2].
    assert (Hnext : forall succ,
      agent_tracks cfg ag0
        {| agent := ag2; rng := g2; env := e1; disk := disk st;
           total_steps := S (total_steps st); successfull_episodes := succ;
           reward_history := reward_history st; calls := log2 |}).
    { intros succ.
      destruct Hinv as (Hsz & Har & Hp & Hf & Hd & Hmin & He & Hc).
      destruct (store_episode_invariants _ _ _ _ _ _ _ Har Hm0)
        as (Har1 & Hsz1 & Hlt1 & _).
      destruct (store_episode_step _ _ _ _ _ _ _ Hm0)
        as (Hp1 & Hf1 & He1 & Hd1 & Hmin1).
      assert (Hlt : memory_buffer_pointer (agent st) < memory_buffer_size (agent st)).
      { unfold store_episode in Hm0. bind_inv Hm0.
        apply np_set_row_Ok in Hm2 as [Hlt _]. destruct Har as (L1 & _). lia. }
      destruct (learn_tracks _ _ _ _ ag0 _ _ _ _ Hm1)
        as (Hsz2 & Har2 & Hp2 & Hf2 & Hd2 & Hmin2 & He2 & Hc2).
      rewrite Hsz, Hp in Hlt.
      destruct (succ_mod_wrap _ _ Hlt) as [Hmod Hfull].
      unfold agent_tracks. simpl.
      split; [congruence|]. split; [auto|].
      split; [rewrite Hp2, Hp1, Hsz, Hp; by rewrite Hmod|].
      split; [rewrite Hf2, Hf1, Hsz, Hp, Hf; by rewrite Hfull|].
      split; [congruence|]. split; [congruence|].
      split; [apply He2; simpl; congruence|].
      rewrite Hc2. simpl. rewrite Hc. apply schedule_count. }
    destruct dn.
    + destruct (sc_leb _ _); inv_Ok Hr; apply Hnext.
    + apply (IH _ _ _ Hr). apply Hnext.
Qed.

Lemma run_episodes_tracks cfg ag0 k (st out : Run R) :
  run_episodes cfg k st = Ok out ->
  agent_tracks cfg ag0 st -> agent_tracks cfg ag0 out.
Proof.
  revert st. induction k as [|k IH]; intros st Hr Hinv.
  - simpl in Hr. by inv_Ok Hr.
  - simpl in Hr. bind_inv Hr.
    assert (Hx : agent_tracks cfg ag0 x).
    { unfold run_episode in Hm. destruct (env_reset (env st)) as [obs e0].
      bind_inv Hm. destruct x0 as [st1 rw]. inv_Ok Hm.
      apply (run_steps_tracks _ ag0) in Hm0; exact Hm0 || exact Hinv. }
    case_decide.
    + by inv_Ok Hr.
    + by apply (IH _ Hr).
Qed.

Lemma run_training_routine_tracks cfg g (e : env_state) d
    state_size action_size junk init_q init_target out :
  run_training_routine cfg g e d state_size action_size junk init_q init_target
  = Ok out ->
  agent_tracks cfg (DDQNAgent_init junk init_q init_target state_size action_size) out.
Proof.
  unfold run_training_routine. intros Hrun.
  apply (run_episodes_tracks _ _ _ _ _ Hrun).
  destruct (DDQNAgent_sized_empty (Z.to_nat 100000) junk init_q init_target
              state_size action_size) as (Hsz & Hp & Hf & Har).
  fold (DDQNAgent_init junk init_q init_target state_size action_size)
    in Hsz, Hp, Hf, Har.
  unfold agent_tracks.
  change (agent _) with (DDQNAgent_init junk init_q init_target state_size action_size).
  change (total_steps _) with 0. change (calls _) with (@nil call).
  split; [reflexivity|]. split; [exact Har|].
  split; [rewrite Hp; symmetry; apply Nat.Div0.mod_0_l|].
  split; [rewrite Hf, Hsz; symmetry; apply bool_decide_eq_false_2; lia|].
  split; [reflexivity|]. split; [reflexivity|]. split; [reflexivity|].
  simpl count_trains. rewrite Nat.Div0.div_0_l. reflexivity.
Qed.

(** X16: at the end of a run the buffer's pointer is the number of steps
    taken modulo the capacity, the full flag says whether the steps have
    reached the capacity, and the valid range is the smaller of the two;
    a schedule of fewer steps than the capacity (the source's 75 * 400
    against 100000) never fills the buffer or overwrites a slot. *)
Theorem run_training_routine_final_buffer cfg g (e : env_state) d
    state_size action_size junk init_q init_target out :
  run_training_routine cfg g e d state_size action_size junk init_q init_target
  = Ok out ->
  let ag := agent out in
  memory_buffer_size ag = Z.to_nat 100000 /\
  arrays_sized ag /\
  memory_buffer_pointer ag = total_steps out mod memory_buffer_size ag /\
  buffer_full ag = bool_decide (memory_buffer_size ag <= total_steps out) /\
  buffer_end_ptr ag = Nat.min (total_steps out) (memory_buffer_size ag) /\
  (n_episodes cfg * max_iterations_ep cfg < memory_buffer_size ag ->
   buffer_full ag = false /\ memory_buffer_pointer ag = total_steps out).
Proof.
  intros Hrun ag.
  destruct (run_training_routine_tracks _ _ _ _ _ _ _ _ _ _ Hrun)
    as (Hsz & Har & Hp & Hf & _).
  fold ag in Hsz, Har, Hp, Hf.
  assert (Hsz0 : memory_buffer_size
                   (DDQNAgent_init junk init_q init_target state_size action_size)
                 = Z.to_nat 100000) by reflexivity.
  rewrite Hsz0 in Hsz, Hp, Hf. rewrite <- Hsz in Hp, Hf.
  split; [exact Hsz|]. clear Hsz Hsz0.
  unfold run_training_routine in Hrun.
  destruct (run_episodes_extent _ _ _ _ Hrun) as (_ & Hle & _ & Hsteps).
  simpl in Hle, Hsteps. rewrite Nat.sub_0_r in Hsteps.
  split; [exact Har|]. split; [exact Hp|]. split; [exact Hf|].
  unfold buffer_end_ptr.
  revert Hp Hf. generalize (memory_buffer_size ag). intros C Hp Hf. split.
  - rewrite Hf, Hp. case_bool_decide as Hfull; simpl.
    + lia.
    + rewrite Nat.mod_small by lia. lia.
  - intros Hsmall. rewrite Hf, Hp.
    assert (total_steps out < C) by nia.
    split; [apply bool_decide_eq_false_2; lia | apply Nat.mod_small; lia].
Qed.

(** X17: a run calls [train] once for every step, counted over the
    whole run, that has reached [batch_size] and is a multiple of
    [q_network_update_freq]. *)
Theorem run_training_routine_train_count cfg g (e : env_state) d
    state_size action_size junk init_q init_target out :
  run_training_routine cfg g e d state_size action_size junk init_q init_target
  = Ok out ->
  count_trains (calls out)
  = total_steps out / q_network_update_freq cfg
    - (batch_size cfg - 1) / q_network_update_freq cfg.
Proof.
  intros Hrun.
  by destruct (run_training_routine_tracks _ _ _ _ _ _ _ _ _ _ Hrun)
    as (_ & _ & _ & _ & _ & _ & _ & ?).
Qed.

(** X18: the exploration rate a run leaves is the rate of a new agent
    after one call of [update_epsilon] per call of [train]; the decay
    factor and the floor are those of a new agent. *)
Theorem run_training_routine_final_epsilon cfg g (e : env_state) d
    state_size action_size junk init_q init_target out :
  run_training_routine cfg g e d state_size action_size junk init_q init_target
  = Ok out ->
  let new := DDQNAgent_init junk init_q init_target state_size action_size in
  epsilon (agent out) = epsilon (decay_times (count_trains (calls out)) new) /\
  epsilon_decay (agent out) = epsilon_decay new /\
  min_epsilon (agent out) = min_epsilon new.
Proof.
  intros Hrun new.
  destruct (run_training_routine_tracks _ _ _ _ _ _ _ _ _ _ Hrun)
    as (_ & _ & _ & _ & Hd & Hmin & He & _).
  fold new in Hd, Hmin, He.
  assert (Hn : count_trains (calls out) = count_decays (calls out)).
  { unfold run_training_routine in Hrun.
    apply (run_episodes_log_ind
             (fun _ log => count_trains log = count_decays log)) in Hrun;
      simpl; try tauto; intros; lia. }
  rewrite Hn. auto.
Qed.
End FinalAgent.

Section Extremes.
Context {NN : Approximator Q}.
Local Open Scope Q_scope.

Lemma random_uniform_nonneg g :
  0 <= (random_uniform (R := Q) (sc_of_int 0) (sc_of_int 1) g).1.
Proof.
  unfold random_uniform, random_sample, next_word. simpl.
  set (w := entropy g (drawn g)).
  assert (Hw : (0 <= Z.of_N (w mod 2 ^ 53))%Z) by apply N2Z.is_nonneg.
  revert Hw. generalize (Z.of_N (w mod 2 ^ 53)). intros z Hz.
  unfold Qle, Qplus, Qmult, Qminus, Qopp, inject_Z. simpl. lia.
Qed.

(** X19: the two ends of the exploration rate.  At 1 or more,
    [compute_action] draws every action at random and never asks the
    network; at 0 or less it always returns the greedy action.  Either
    way the uniform draw is consumed first. *)
Theorem compute_action_extremes (self : DDQNAgent Q) x g :
  let g1 := (random_uniform (R := Q) (sc_of_int 0) (sc_of_int 1) g).2 in
  (1 <= epsilon self ->
   compute_action self x g = random_choice (n_actions self) g1) /\
  (epsilon self <= 0 ->
   compute_action self x g = let* a := greedy_action self x in Ok (a, g1)).
Proof.
  intros g1. split; [apply compute_action_explores|].
  intros He. unfold compute_action. subst g1.
  pose proof (random_uniform_nonneg g) as Hu.
  destruct (random_uniform (sc_of_int 0) (sc_of_int 1) g) as [u g1]. simpl in *.
  destruct (Qle_bool (epsilon self) u) eqn:Hle; simpl; [reflexivity|].
  assert (Hle' : Qle_bool (epsilon self) u = true)
    by (apply Qle_bool_iff; eapply Qle_trans; eassumption).
  congruence.
Qed.
End Extremes.

Lemma run_training_routine_final_buffer_witness :
  exists out,
    run_training_routine (NN := dense_network) (E := countdown_env) eager_config
      counting_entropy 3 [] 1 2 zero_junk (ternary_init 0) (ternary_init 1)
    = Ok out /\
    buffer_full (agent out) = false /\
    memory_buffer_pointer (agent out) = total_steps out.
Proof.
  with_eager_run out Hrun. exists out. split; [reflexivity|].
  destruct (run_training_routine_final_buffer _ _ _ _ _ _ _ _ _ _ Hrun)
    as (Hsz & _ & _ & _ & _ & Hsmall).
  apply Hsmall. rewrite Hsz. change (1 * 4 < Z.to_nat 100000). lia.
Defined.

Lemma run_training_routine_train_count_witness :
  exists out,
    run_training_routine (NN := dense_network) (E := countdown_env) eager_config
      counting_entropy 3 [] 1 2 zero_junk (ternary_init 0) (ternary_init 1)
    = Ok out /\
    count_trains (calls out) = total_steps out / 2 - (2 - 1) / 2.
Proof.
  with_eager_run out Hrun. exists out. split; [reflexivity|].
  exact (run_training_routine_train_count _ _ _ _ _ _ _ _ _ _ Hrun).
Defined.

Lemma run_training_routine_final_epsilon_witness :
  exists out,
    run_training_routine (NN := dense_network) (E := countdown_env) eager_config
      counting_entropy 3 [] 1 2 zero_junk (ternary_init 0) (ternary_init 1)
    = Ok out /\
    epsilon_decay (agent out) = (995 # 1000)%Q /\
    min_epsilon (agent out) = (1 # 10)%Q.
Proof.
  with_eager_run out Hrun. exists out. split; [reflexivity|].
  destruct (run_training_routine_final_epsilon _ _ _ _ _ _ _ _ _ _ Hrun)
    as (_ & Hd & Hmin).
  split; [exact Hd | exact Hmin].
Defined.

Lemma compute_action_extremes_witness :
  compute_action tiny_agent (Mat [[1%Q]]) counting_entropy
  = random_choice (n_actions tiny_agent)
      (random_uniform (R := Q) (sc_of_int 0) (sc_of_int 1) counting_entropy).2.
Proof.
  destruct (compute_action_extremes tiny_agent (Mat [[1%Q]]) counting_entropy)
    as [Hhigh _].
  apply Hhigh. vm_compute. discriminate.
Defined.
